(** * Hero background generator: a shallow embedding of
      [generate_background_v2.py]

    The script is a straight-line matplotlib/NumPy program.  It is embedded
    here as follows.

    - binary64 values are idealised as real numbers ([R]); [np.sin],
      [np.exp], [np.sqrt] and [np.pi] are [sin], [exp], [sqrt] and [PI];
    - NumPy arrays are lists (2-D arrays are lists of rows); the array
      expressions of the script are total functions of their inputs;
    - the interpreter state touched by the library calls (the global NumPy
      generator, the current figure with its axes, the files of the working
      directory and standard output) is a record [World], threaded through
      a state and exception monad [Py]; every call into matplotlib, into
      [np.random] and every [print] is a point where the environment may
      make the run raise;
    - [print] writes to [sys.stdout], a buffered stream; once the script
      is over, normally or by an exception, the interpreter flushes the
      standard streams, and a failure of that flush decides the exit
      status;
    - what a drawing call leaves on the axes is recorded as an [Artist]
      with the arguments of the call; rasterisation is not modelled, nor is
      the autoscaling of the data limits (the script fixes both limits
      before it saves);
    - the legacy NumPy generator and the renderer's tight bounding box are
      not part of the repository: they are parameters of the development. *)

From Stdlib Require Import Reals Lra ZArith Lia Ascii String.
From stdpp Require Import base strings gmap list.

Open Scope R_scope.

(** ** NumPy fragment *)

Module np.

(** [np.linspace(start, stop, num)]: [num] evenly spaced samples, end
    point included. *)
Definition linspace (start stop : R) (num : nat) : list R :=
  map (fun i : nat => start + INR i * ((stop - start) / INR (num - 1)))
      (seq 0 num).

(** [np.meshgrid(x, y)] with the default ['xy'] indexing: both results
    have one row per element of [y]. *)
Definition meshgrid (x y : list R) : list (list R) * list (list R) :=
  (map (fun _ : R => x) y, map (fun yi : R => map (fun _ : R => yi) x) y).

(** [np.mgrid[a:b:nj, c:d:mj]]: the first grid varies along the rows,
    the second along the columns. *)
Definition mgrid (a b : R) (n : nat) (c d : R) (m : nat)
  : list (list R) * list (list R) :=
  let rows := linspace a b n in
  let cols := linspace c d m in
  (map (fun ri : R => map (fun _ : R => ri) cols) rows,
   map (fun _ : R => cols) rows).

(** Element-wise operations on 2-D arrays. *)
Definition map2d (f : R -> R) (a : list (list R)) : list (list R) :=
  map (map f) a.

Definition zip2d (f : R -> R -> R) (a b : list (list R)) : list (list R) :=
  zip_with (zip_with f) a b.

(** [np.dstack([r, g, b])] of three 2-D arrays. *)
Definition dstack3 (r g b : list (list R)) : list (list (R * R * R)) :=
  zip_with (fun row gb => zip_with (fun x '(y, z) => (x, y, z)) row gb)
           r (zip_with zip g b).

End np.

(** ** matplotlib fragment: artists, the figure, saved images *)

Module mpl.

Record Triangulation := { tri_x : list R; tri_y : list R }.

Record Circle := {
  center : R * R;
  radius : R;
  fill : bool;
  edgecolor : string;
  circ_linewidth : R;
  circ_alpha : R
}.

(** What a drawing call leaves on the axes. *)
Inductive Artist :=
| AxesImage (data : list (list (R * R * R))) (extent : R * R * R * R)
            (alpha : R)
| Line2D (xdata ydata : list R) (color : string) (linewidth alpha : R)
         (solid_capstyle : option string)
| Marker (xpos ypos : R) (marker color : string) (markersize alpha : R)
| TriLines (triang : Triangulation) (color : string) (linewidth alpha : R)
           (linestyle : string)
| Quiver (gx gy gu gv : list (list R)) (color : string)
         (alpha width scale headwidth headlength : R)
| Text (xpos ypos : R) (s : string) (fontsize : R) (color : string)
       (alpha : R) (family weight boxstyle box_facecolor box_edgecolor : string)
| Patch (c : Circle).

(** The current figure with its single axes. *)
Record Figure := {
  figsize : R * R;          (* inches *)
  fig_dpi : R;
  artists : list Artist;    (* in drawing order *)
  xlim : R * R;
  ylim : R * R;
  axison : bool;
  aspect : string;
  tight_pad : option R;     (* set by [plt.tight_layout] *)
  closed : bool
}.

Definition new_figure (size : R * R) (dpi : R) : Figure :=
  {| figsize := size; fig_dpi := dpi; artists := []; xlim := (0, 1);
     ylim := (0, 1); axison := true; aspect := "auto"; tight_pad := None;
     closed := false |}.

Definition add_artist (a : Artist) (f : Figure) : Figure :=
  {| figsize := figsize f; fig_dpi := fig_dpi f;
     artists := artists f ++ [a]; xlim := xlim f; ylim := ylim f;
     axison := axison f; aspect := aspect f; tight_pad := tight_pad f;
     closed := closed f |}.

Definition add_artists (xs : list Artist) (f : Figure) : Figure :=
  {| figsize := figsize f; fig_dpi := fig_dpi f;
     artists := artists f ++ xs; xlim := xlim f; ylim := ylim f;
     axison := axison f; aspect := aspect f; tight_pad := tight_pad f;
     closed := closed f |}.

Definition set_aspect (v : string) (f : Figure) : Figure :=
  {| figsize := figsize f; fig_dpi := fig_dpi f; artists := artists f;
     xlim := xlim f; ylim := ylim f; axison := axison f; aspect := v;
     tight_pad := tight_pad f; closed := closed f |}.

Definition set_xlim (lo hi : R) (f : Figure) : Figure :=
  {| figsize := figsize f; fig_dpi := fig_dpi f; artists := artists f;
     xlim := (lo, hi); ylim := ylim f; axison := axison f;
     aspect := aspect f; tight_pad := tight_pad f; closed := closed f |}.

Definition set_ylim (lo hi : R) (f : Figure) : Figure :=
  {| figsize := figsize f; fig_dpi := fig_dpi f; artists := artists f;
     xlim := xlim f; ylim := (lo, hi); axison := axison f;
     aspect := aspect f; tight_pad := tight_pad f; closed := closed f |}.

Definition axis_off (f : Figure) : Figure :=
  {| figsize := figsize f; fig_dpi := fig_dpi f; artists := artists f;
     xlim := xlim f; ylim := ylim f; axison := false; aspect := aspect f;
     tight_pad := tight_pad f; closed := closed f |}.

Definition tight_layout (pad : R) (f : Figure) : Figure :=
  {| figsize := figsize f; fig_dpi := fig_dpi f; artists := artists f;
     xlim := xlim f; ylim := ylim f; axison := axison f;
     aspect := aspect f; tight_pad := Some pad; closed := closed f |}.

Definition close (f : Figure) : Figure :=
  {| figsize := figsize f; fig_dpi := fig_dpi f; artists := artists f;
     xlim := xlim f; ylim := ylim f; axison := axison f;
     aspect := aspect f; tight_pad := tight_pad f; closed := true |}.

(** The opacity a drawing call was given. *)
Definition alpha_of (a : Artist) : R :=
  match a with
  | AxesImage _ _ al => al
  | Line2D _ _ _ _ al _ => al
  | Marker _ _ _ _ _ al => al
  | TriLines _ _ _ al _ => al
  | Quiver _ _ _ _ _ al _ _ _ _ => al
  | Text _ _ _ _ _ al _ _ _ _ _ => al
  | Patch c => circ_alpha c
  end.

(** *** Colours *)

Definition hex_digit (c : ascii) : option N :=
  let n := N_of_ascii c in
  if ((48 <=? n) && (n <=? 57))%N then Some (n - 48)%N
  else if ((97 <=? n) && (n <=? 102))%N then Some (n - 87)%N
  else if ((65 <=? n) && (n <=? 70))%N then Some (n - 55)%N
  else None.

Definition hex_byte (hi lo : ascii) : option N :=
  match hex_digit hi, hex_digit lo with
  | Some h, Some l => Some (16 * h + l)%N
  | _, _ => None
  end.

(** [to_rgba] on the colour specifications the script uses: ['none'],
    ['white'] and ['#rrggbb']; channels are bytes, the last one is the
    opacity. *)
Definition to_rgba (spec : string) : option (N * N * N * N) :=
  if String.eqb spec "none" then Some (0, 0, 0, 0)%N
  else if String.eqb spec "white" then Some (255, 255, 255, 255)%N
  else match spec with
       | String "#" (String r1 (String r2 (String g1 (String g2
           (String b1 (String b2 EmptyString)))))) =>
           match hex_byte r1 r2, hex_byte g1 g2, hex_byte b1 b2 with
           | Some rv, Some gv, Some bv => Some (rv, gv, bv, 255%N)
           | _, _, _ => None
           end
       | _ => None
       end.

(** *** Saved images *)

Inductive Format := PNG | JPEG.

(** Text after the last dot of a file name. *)
Fixpoint extension (acc : option string) (name : string) : option string :=
  match name with
  | EmptyString => acc
  | String c rest =>
      if Ascii.eqb c "." then extension (Some EmptyString) rest
      else extension (option_map (fun e => e ++ String c EmptyString)%string acc) rest
  end.

(** The output format is chosen from the file name. *)
Definition format_of (fname : string) : option Format :=
  match extension None fname with
  | Some e =>
      if String.eqb e "png" then Some PNG
      else if (String.eqb e "jpg" || String.eqb e "jpeg")%bool then Some JPEG
      else None
  | None => None
  end.

(** A PNG is written as RGBA; JPEG has no opacity channel. *)
Definition has_alpha_channel (f : Format) : bool :=
  match f with PNG => true | JPEG => false end.

Record SaveOpts := {
  dpi : R;
  bbox_inches : option string;
  pad_inches : R;
  facecolor : string;
  save_edgecolor : string;
  transparent : bool
}.

Record ImageFile := {
  img_format : Format;
  img_size : R * R;                       (* pixels: width, height *)
  img_alpha_channel : bool;
  img_fill : option (N * N * N * N);      (* colour of the figure patch *)
  img_transparent_axes : bool;            (* axes patches left clear *)
  img_content : list Artist
}.

(** The part of the figure that is written, in inches: with
    [bbox_inches='tight'] the renderer's tight bounding box of the drawn
    content, padded by [pad_inches]; otherwise the whole figure. *)
Definition saved_region (tightbbox : Figure -> R * R) (f : Figure)
           (o : SaveOpts) : R * R :=
  match bbox_inches o with
  | Some b =>
      if String.eqb b "tight"
      then (fst (tightbbox f) + 2 * pad_inches o,
            snd (tightbbox f) + 2 * pad_inches o)
      else figsize f
  | None => figsize f
  end.

Definition savefig_image (tightbbox : Figure -> R * R) (f : Figure)
           (fmt : Format) (o : SaveOpts) : ImageFile :=
  {| img_format := fmt;
     img_size := (fst (saved_region tightbbox f o) * dpi o,
                  snd (saved_region tightbbox f o) * dpi o);
     img_alpha_channel := has_alpha_channel fmt;
     img_fill := to_rgba (facecolor o);
     img_transparent_axes := transparent o;
     img_content := artists f |}.

(** The box of an axes whose aspect is ['equal'] (adjustable box, both
    axes of the same data length): the largest square that fits the
    figure.  With the axis decorations off and every artist clipped to or
    inside the axes this is also the tight bounding box. *)
Definition equal_aspect_box (f : Figure) : R * R :=
  let side := Rmin (fst (figsize f)) (snd (figsize f)) in
  if String.eqb (aspect f) "equal" then (side, side) else figsize f.

End mpl.

(** ** The literal data and the array computations of the script *)

Module Hero.

(** *** Gradient background (lines 19-38) *)

Definition x : list R := np.linspace 0 1 200.
Definition y : list R := np.linspace 0 1 200.
Definition X : list (list R) := fst (np.meshgrid x y).
Definition Y : list (list R) := snd (np.meshgrid x y).

Definition color_dark : list R := map (fun c => c / 255) [25; 55; 180].
Definition color_mid : list R := map (fun c => c / 255) [37; 99; 235].
Definition color_light : list R := map (fun c => c / 255) [14; 165; 233].

(** The arrays [R], [G] and [B] of lines 29-31 ([R] is taken by the
    type of the reals). *)
Definition chan_R : list (list R) :=
  np.zip2d (fun yv xv =>
              (nth 0 color_dark 0 * (1 - yv) + nth 0 color_light 0 * yv)
              * (1 - 0.2 * xv)) Y X.
Definition chan_G : list (list R) :=
  np.zip2d (fun yv xv =>
              (nth 1 color_dark 0 * (1 - yv) + nth 1 color_light 0 * yv)
              * (1 - 0.15 * xv)) Y X.
Definition chan_B : list (list R) :=
  np.zip2d (fun yv xv =>
              (nth 2 color_dark 0 * (1 - yv) + nth 2 color_light 0 * yv)
              * (1 - 0.1 * xv)) Y X.

Definition center_x : R := 0.3.
Definition center_y : R := 0.6.

Definition radial : list (list R) :=
  np.zip2d (fun xv yv => sqrt ((xv - center_x) ^ 2 + (yv - center_y) ^ 2)) X Y.

Definition radial_factor : list (list R) :=
  np.map2d (fun d => 1 - 0.15 * exp (- d * 3)) radial.

Definition background : list (list (R * R * R)) :=
  np.dstack3 (np.zip2d Rmult chan_R radial_factor)
             (np.zip2d Rmult chan_G radial_factor)
             (np.zip2d Rmult chan_B radial_factor).

(** *** Wave patterns (lines 42-53) *)

Definition t : list R := np.linspace 0 10 2000.

(** (freq, phase, alpha_val, lw, offset) *)
Definition wave_configs : list (R * R * R * R * R) :=
  [ (1.8, 0, 0.20, 2.5, 5.0);
    (2.4, PI / 3, 0.18, 2.0, 4.5);
    (3.2, PI / 2, 0.15, 1.8, 5.5);
    (2.0, PI, 0.12, 2.2, 6.0);
    (3.8, 3 * PI / 4, 0.10, 1.5, 4.0) ].

(** One sample of [y_wave]: the expression of line 52 at abscissa [ti]. *)
Definition wave_ordinate (freq phase offset ti : R) : R :=
  offset + 1.2 * sin (freq * ti + phase) + 0.3 * sin (freq * 2 * ti).

Definition y_wave (freq phase offset : R) : list R :=
  map (wave_ordinate freq phase offset) t.

(** *** Mesh regions (lines 59-63): (bounds, n_pts) *)

Definition mesh_regions : list (list R * nat) :=
  [ ([0.5; 2.5; 0.5; 2.5], 15%nat);
    ([7; 9.5; 7; 9.5], 12%nat);
    ([3; 6; 2; 5], 18%nat) ].

(** *** Flow field (lines 72-86) *)

Definition Y_grid : list (list R) := fst (np.mgrid 0.8 9.2 12 0.8 9.2 12).
Definition X_grid : list (list R) := snd (np.mgrid 0.8 9.2 12 0.8 9.2 12).

Definition center_flow : list R := [5.0; 5.0].

Definition dx : list (list R) :=
  np.map2d (fun xv => xv - nth 0 center_flow 0) X_grid.
Definition dy : list (list R) :=
  np.map2d (fun yv => yv - nth 1 center_flow 0) Y_grid.
Definition r : list (list R) :=
  np.zip2d (fun a b => sqrt (a ^ 2 + b ^ 2) + 0.1) dx dy.

(** Spiral flow pattern (lines 81-82). *)
Definition U_spiral : list (list R) :=
  np.zip2d (fun dyv rv => - dyv / rv * exp (- rv / 4)) dy r.
Definition V_spiral : list (list R) :=
  np.zip2d (fun dxv rv => dxv / rv * exp (- rv / 4)) dx r.

(** After the in-place updates [U += -0.15 * dx], [V += -0.15 * dy]. *)
Definition U : list (list R) :=
  np.zip2d (fun u dxv => u + -0.15 * dxv) U_spiral dx.
Definition V : list (list R) :=
  np.zip2d (fun v dyv => v + -0.15 * dyv) V_spiral dy.

(** *** Annotations (lines 93-98): (text, (x_pos, y_pos), fontsize) *)

Definition equations : list (string * (R * R) * R) :=
  [ ("$\nabla \cdot \mathbf{u} = 0$"%string, (1.2, 8.8), 16);
    ("$\nabla^2 p = -\omega^2 c^{-2} p$"%string, (8.2, 1.5), 14);
    ("$\min_{\mathbf{m}} \, J(\mathbf{m})$"%string, (8.5, 8.5), 16);
    ("$\mathbf{g} = \nabla_{\mathbf{m}} J$"%string, (1.5, 1.8), 14) ].

(** *** Circles (lines 108-112): (cx, cy, radius, alpha_val, lw) *)

Definition circles : list (R * R * R * R * R) :=
  [ (2.2, 7.2, 0.8, 0.10, 2.5);
    (7.8, 3.0, 0.7, 0.12, 2.2);
    (5.0, 5.2, 1.0, 0.08, 2.8) ].

(** *** Corner elements (lines 129-132): (cx, cy, dx, dy) *)

Definition corner_elements : list (R * R * R * R) :=
  [ (0.3, 0.3, 0.5, 0.5);
    (9.7, 9.7, -0.5, -0.5) ].

Definition n_particles : nat := 80.

(** ** A concrete environment *)

(** A small generator: the state counts the draws, which alternate
    between 1/4 and 3/4. *)
Definition toy_seed (z : Z) : nat := Z.to_nat z.
Definition toy_sample (s : nat) : R * nat :=
  (if Nat.even s then 1 / 4 else 3 / 4, S s).

(** An environment in which no call raises, and one in which the [k]-th
    call does. *)
Definition no_faults (n : nat) : bool := false.
Definition fault_at (k n : nat) : bool := Nat.eqb n k.

(** ** The interpreter state and the monad of the script *)

Import mpl.

Section Script.

(** The legacy global generator of NumPy: its state, seeding, and one
    draw of [random_sample]. *)
Variable rng : Type.
Variable mt_seed : Z -> rng.
Variable random_sample : rng -> R * rng.

(** Which library call raises: the [n]-th call of the run does when
    [raises n] holds. *)
Variable raises : nat -> bool.

(** The renderer's tight bounding box of a figure, in inches. *)
Variable get_tightbbox : Figure -> R * R.

(** Whether the flush of the standard streams fails when the interpreter
    is finalised (a full device or a closed pipe behind [sys.stdout]). *)
Variable flush_fails : bool.

Record World := {
  rng_state : rng;
  fig : Figure;
  files : gmap string ImageFile;
  stdout : list string;     (* lines written to sys.stdout so far *)
  calls : nat               (* library calls completed so far *)
}.

Definition set_rng (s : rng) (w : World) : World :=
  {| rng_state := s; fig := fig w; files := files w;
     stdout := stdout w; calls := calls w |}.

Definition set_fig (f : Figure) (w : World) : World :=
  {| rng_state := rng_state w; fig := f; files := files w;
     stdout := stdout w; calls := calls w |}.

Definition set_files (d : gmap string ImageFile) (w : World) : World :=
  {| rng_state := rng_state w; fig := fig w; files := d;
     stdout := stdout w; calls := calls w |}.

Definition set_stdout (o : list string) (w : World) : World :=
  {| rng_state := rng_state w; fig := fig w; files := files w;
     stdout := o; calls := calls w |}.

Definition tick (w : World) : World :=
  {| rng_state := rng_state w; fig := fig w; files := files w;
     stdout := stdout w; calls := S (calls w) |}.

(** A computation returns a value or raises; a raised exception carries
    the state it left behind. *)
Inductive Outcome (A : Type) :=
| Returned (a : A) (w : World)
| Raised (w : World).
Arguments Returned {A} a w.
Arguments Raised {A} w.

Definition Py (A : Type) : Type := World -> Outcome A.

Definition py_ret {A} (a : A) : Py A := fun w => Returned a w.

(** Sequencing: there is no handler, so an exception skips the rest. *)
Definition py_bind {A B} (f : A -> Py B) (m : Py A) : Py B :=
  fun w => match m w with
           | Returned a w' => f a w'
           | Raised w' => Raised w'
           end.

#[local] Instance Py_ret : MRet Py := @py_ret.
#[local] Instance Py_bind : MBind Py := @py_bind.

Definition raise {A} : Py A := fun w => Raised w.

(** A library call: it raises when the environment says so, and
    otherwise performs its effect. *)
Definition call {A} (f : World -> A * World) : Py A :=
  fun w => if raises (calls w) then Raised w
           else Returned (fst (f w)) (tick (snd (f w))).

(** [for a in l: body] *)
Fixpoint for_ {A} (l : list A) (body : A -> Py unit) : Py unit :=
  match l with
  | [] => mret tt
  | a :: l' => body a ;; for_ l' body
  end.

Definition world_of {A} (o : Outcome A) : World :=
  match o with Returned _ w => w | Raised w => w end.

(** The process.  When the script is over - it ran to its end, or an
    exception (an ordinary one, not a request to exit) reached the top
    level and its traceback went to standard error - the interpreter is
    finalised and flushes the standard streams.  The exit status is 120
    when that flush fails, whatever happened before; otherwise it is 0 on
    normal termination and 1 after an exception. *)
Definition exit_code {A} (o : Outcome A) : Z :=
  if flush_fails then 120%Z
  else match o with Returned _ _ => 0%Z | Raised _ => 1%Z end.

(** What has reached the standard output of the process when it exits:
    all that was written to [sys.stdout] once the final flush has
    succeeded; nothing is known to have arrived when it failed. *)
Definition delivered {A} (o : Outcome A) : option (list string) :=
  if flush_fails then None else Some (stdout (world_of o)).

(** *** The library calls of the script *)

Definition draw (a : Artist) (w : World) : unit * World :=
  (tt, set_fig (add_artist a (fig w)) w).

Definition on_fig (g : Figure -> Figure) (w : World) : unit * World :=
  (tt, set_fig (g (fig w)) w).

Definition plt_figure (size : R * R) (dpi : R) : Py unit :=
  call (on_fig (fun _ => new_figure size dpi)).

Definition plt_gca : Py unit := call (fun w => (tt, w)).

Definition ax_imshow (img : list (list (R * R * R)))
           (extent : R * R * R * R) (asp : string) (alpha : R) : Py unit :=
  call (on_fig (fun f => set_aspect asp (add_artist (AxesImage img extent alpha) f))).

(** [ax.plot(xs, ys, color, linewidth=, alpha=, solid_capstyle=)] *)
Definition ax_plot (xs ys : list R) (color : string) (linewidth alpha : R)
           (solid_capstyle : option string) : Py unit :=
  call (draw (Line2D xs ys color linewidth alpha solid_capstyle)).

(** [ax.plot(x, y, marker, color=, markersize=, alpha=)] *)
Definition ax_plot_marker (xv yv : R) (marker color : string)
           (markersize alpha : R) : Py unit :=
  call (draw (Marker xv yv marker color markersize alpha)).

Definition np_random_seed (z : Z) : Py unit :=
  call (fun w => (tt, set_rng (mt_seed z) w)).

Fixpoint random_samples (n : nat) (s : rng) : list R * rng :=
  match n with
  | O => ([], s)
  | S n' => let '(u, s1) := random_sample s in
            let '(us, s2) := random_samples n' s1 in
            (u :: us, s2)
  end.

(** [np.random.uniform(low, high, n)]: [n] draws, scaled. *)
Definition uniform (low high : R) (n : nat) (s : rng) : list R * rng :=
  (map (fun u => low + (high - low) * u) (fst (random_samples n s)),
   snd (random_samples n s)).

Definition np_random_uniform (low high : R) (n : nat) : Py (list R) :=
  call (fun w => (fst (uniform low high n (rng_state w)),
                  set_rng (snd (uniform low high n (rng_state w))) w)).

Definition Triangulation_ (mx my : list R) : Py Triangulation :=
  call (fun w => ({| tri_x := mx; tri_y := my |}, w)).

Definition ax_triplot (tr : Triangulation) (color : string)
           (linewidth alpha : R) (linestyle : string) : Py unit :=
  call (draw (TriLines tr color linewidth alpha linestyle)).

Definition ax_quiver (gx gy gu gv : list (list R)) (color : string)
           (alpha width scale headwidth headlength : R) : Py unit :=
  call (draw (Quiver gx gy gu gv color alpha width scale headwidth headlength)).

Definition ax_text (xv yv : R) (s : string) (fontsize : R) (color : string)
           (alpha : R) (family weight boxstyle fc ec : string) : Py unit :=
  call (draw (Text xv yv s fontsize color alpha family weight boxstyle fc ec)).

Definition Circle_ (c : R * R) (rad : R) (fl : bool) (ec : string)
           (linewidth alpha : R) : Py Circle :=
  call (fun w => ({| center := c; radius := rad; fill := fl;
                     edgecolor := ec; circ_linewidth := linewidth;
                     circ_alpha := alpha |}, w)).

Definition ax_add_patch (c : Circle) : Py unit := call (draw (Patch c)).

Definition ax_set_xlim (lo hi : R) : Py unit := call (on_fig (set_xlim lo hi)).
Definition ax_set_ylim (lo hi : R) : Py unit := call (on_fig (set_ylim lo hi)).
Definition ax_axis_off : Py unit := call (on_fig axis_off).
Definition ax_set_aspect (v : string) : Py unit := call (on_fig (set_aspect v)).
Definition plt_tight_layout (pad : R) : Py unit := call (on_fig (tight_layout pad)).

(** [plt.savefig]: an unknown extension is an error; otherwise the file
    of that name is created or replaced. *)
Definition plt_savefig (fname : string) (o : SaveOpts) : Py unit :=
  match format_of fname with
  | Some fmt =>
      call (fun w => (tt, set_files
                            (<[fname := savefig_image get_tightbbox (fig w) fmt o]>
                               (files w)) w))
  | None => raise
  end.

Definition plt_close : Py unit := call (on_fig close).

(** [print(line)] hands the line to [sys.stdout]; the stream may keep it
    in its buffer until it is flushed. *)
Definition print (line : string) : Py unit :=
  call (fun w => (tt, set_stdout (stdout w ++ [line]) w)).

(** ** The script, block by block *)

(** Lines 38-39. *)
Definition draw_background : Py unit :=
  ax_imshow background (0, 10, 0, 10) "auto" 1.0.

(** Lines 51-53. *)
Definition draw_waves : Py unit :=
  for_ wave_configs (fun '(freq, phase, alpha_val, lw, offset) =>
    ax_plot t (y_wave freq phase offset) "white" lw alpha_val (Some "round")).

(** Lines 56-69. *)
Definition draw_mesh : Py unit :=
  np_random_seed 42 ;;
  for_ mesh_regions (fun '(bounds, n_pts) =>
    mesh_x ← np_random_uniform (nth 0 bounds 0) (nth 1 bounds 0) n_pts;
    mesh_y ← np_random_uniform (nth 2 bounds 0) (nth 3 bounds 0) n_pts;
    triang ← Triangulation_ mesh_x mesh_y;
    ax_triplot triang "white" 0.6 0.12 "-").

(** Lines 88-90. *)
Definition draw_flow_field : Py unit :=
  ax_quiver X_grid Y_grid U V "white" 0.15 0.004 12 3.5 4.5.

(** Lines 100-104. *)
Definition draw_equations : Py unit :=
  for_ equations (fun '(eq, (x_pos, y_pos), fsize) =>
    ax_text x_pos y_pos eq fsize "white" 0.18 "serif" "normal"
            "round,pad=0.4" "none" "none").

(** Lines 114-121. *)
Definition draw_circles : Py unit :=
  for_ circles (fun '(cx, cy, radius, alpha_val, lw) =>
    circle ← Circle_ (cx, cy) radius false "white" lw alpha_val;
    ax_add_patch circle ;;
    inner_circle ← Circle_ (cx, cy) (radius * 0.6) false "white"
                            (lw * 0.6) (alpha_val * 0.5);
    ax_add_patch inner_circle).

(** Lines 124-126. *)
Definition draw_grid : Py unit :=
  for_ (np.linspace 0.5 9.5 15) (fun i =>
    ax_plot [i; i] [0; 10] "white" 0.3 0.04 None ;;
    ax_plot [0; 10] [i; i] "white" 0.3 0.04 None).

(** Lines 134-138. *)
Definition draw_corners : Py unit :=
  for_ corner_elements (fun '(cx, cy, dx, dy) =>
    ax_plot [cx; cx + dx] [cy; cy] "white" 3 0.2 (Some "round") ;;
    ax_plot [cx; cx] [cy; cy + dy] "white" 3 0.2 (Some "round")).

(** Lines 141-150. *)
Definition draw_particles : Py unit :=
  np_random_seed 123 ;;
  px ← np_random_uniform 0 10 n_particles;
  py ← np_random_uniform 0 10 n_particles;
  sizes ← np_random_uniform 1 4 n_particles;
  alphas ← np_random_uniform 0.05 0.15 n_particles;
  for_ (seq 0 n_particles) (fun i =>
    ax_plot_marker (nth i px 0) (nth i py 0) "o" "white"
                   (nth i sizes 0) (nth i alphas 0)).

(** Lines 153-156. *)
Definition clean_up : Py unit :=
  ax_set_xlim 0 10 ;;
  ax_set_ylim 0 10 ;;
  ax_axis_off ;;
  ax_set_aspect "equal".

Definition png_name : string := "hero-background.png".
Definition jpg_name : string := "hero-background.jpg".

Definition png_opts : SaveOpts :=
  {| dpi := 200; bbox_inches := Some "tight"%string; pad_inches := 0;
     facecolor := "none"; save_edgecolor := "none"; transparent := true |}.

Definition jpg_opts : SaveOpts :=
  {| dpi := 200; bbox_inches := Some "tight"%string; pad_inches := 0;
     facecolor := "#1937b4"; save_edgecolor := "none";
     transparent := false |}.

(** Lines 159-165. *)
Definition save_outputs : Py unit :=
  plt_tight_layout 0 ;;
  plt_savefig png_name png_opts ;;
  plt_savefig jpg_name jpg_opts ;;
  plt_close.

(** Lines 167-169. *)
Definition report : Py unit :=
  print "✓ High-quality background images generated successfully!" ;;
  print "  - hero-background.png (transparent, 200 DPI)" ;;
  print "  - hero-background.jpg (solid background, 200 DPI)".

(** What a complete run prints. *)
Definition status_lines : list string :=
  [ "✓ High-quality background images generated successfully!"%string;
    "  - hero-background.png (transparent, 200 DPI)"%string;
    "  - hero-background.jpg (solid background, 200 DPI)"%string ].

(** The whole module body. *)
Definition main : Py unit :=
  plt_figure (19.2, 10.8) 200 ;;
  plt_gca ;;
  draw_background ;;
  draw_waves ;;
  draw_mesh ;;
  draw_flow_field ;;
  draw_equations ;;
  draw_circles ;;
  draw_grid ;;
  draw_corners ;;
  draw_particles ;;
  clean_up ;;
  save_outputs ;;
  report.

(** A run starts with whatever state the generator was given by the
    operating system, whatever files are in the working directory and
    nothing printed. *)
Definition initial_world (entropy : rng) (disk : gmap string ImageFile)
  : World :=
  {| rng_state := entropy; fig := new_figure (6.4, 4.8) 100;
     files := disk; stdout := []; calls := 0 |}.

Definition run (entropy : rng) (disk : gmap string ImageFile)
  : Outcome unit :=
  main (initial_world entropy disk).

(** Number of library calls of a complete run. *)
Definition n_calls : nat := 168.

(** The index of the first call that raises among the first [n]. *)
Definition first_fault (n : nat) : option nat :=
  List.find raises (seq 0 n).

(** ** A program logic for [Py] *)

(** [triple P m Q E]: from a state in [P], [m] either returns a value
    and a state in [Q], or raises in a state in [E]. *)
Definition triple {A} (P : World -> Prop) (m : Py A)
           (Q : A -> World -> Prop) (E : World -> Prop) : Prop :=
  forall w, P w ->
    match m w with
    | Returned a w' => Q a w'
    | Raised w' => E w'
    end.

(** *** Counting calls *)

Definition clean (a b : nat) : Prop :=
  forall k, (a <= k < b)%nat -> raises k = false.

(** [counts n m]: when it returns, [m] has completed exactly [n] calls,
    none of which raised; when it raises, it stopped at the first call
    that did, before completing [n]. *)
Definition counts {A} (n : nat) (m : Py A) : Prop :=
  forall c,
    triple (fun w => calls w = c) m
           (fun _ w' => calls w' = (c + n)%nat /\ clean c (c + n))
           (fun w' => (c <= calls w' < c + n)%nat /\
                      raises (calls w') = true /\ clean c (calls w')).

(** The state but for the call counter. *)
Definition at_ (s : rng) (F : Figure) (D : gmap string ImageFile)
           (O : list string) (w : World) : Prop :=
  rng_state w = s /\ fig w = F /\ files w = D /\ stdout w = O.

Definition anything (w : World) : Prop := True.

(** The closed form of a loop whose iterations draw artists and move
    the generator. *)
Fixpoint loop_fold {A} (step : A -> rng -> list Artist * rng)
         (l : list A) (s : rng) : list Artist * rng :=
  match l with
  | [] => ([], s)
  | a :: l' =>
      (fst (step a s) ++ fst (loop_fold step l' (snd (step a s))),
       snd (loop_fold step l' (snd (step a s))))
  end.

(** *** What each block draws, in closed form *)

Definition gradient_image : list Artist :=
  [AxesImage background (0, 10, 0, 10) 1.0].

Definition wave_stroke (cfg : R * R * R * R * R) : list Artist :=
  let '(freq, phase, alpha_val, lw, offset) := cfg in
  [Line2D t (y_wave freq phase offset) "white" lw alpha_val (Some "round"%string)].

Definition mesh_step (region : list R * nat) (s : rng) : list Artist * rng :=
  let '(bounds, n_pts) := region in
  let mx := uniform (nth 0 bounds 0) (nth 1 bounds 0) n_pts s in
  let my := uniform (nth 2 bounds 0) (nth 3 bounds 0) n_pts (snd mx) in
  ([TriLines {| tri_x := fst mx; tri_y := fst my |} "white" 0.6 0.12 "-"],
   snd my).

Definition mesh_lines : list Artist :=
  fst (loop_fold mesh_step mesh_regions (mt_seed 42)).

Definition flow_arrows : list Artist :=
  [Quiver X_grid Y_grid U V "white" 0.15 0.004 12 3.5 4.5].

Definition label (e : string * (R * R) * R) : list Artist :=
  let '(eq, (x_pos, y_pos), fsize) := e in
  [Text x_pos y_pos eq fsize "white" 0.18 "serif" "normal"
        "round,pad=0.4" "none" "none"].

Definition ring_pair (c : R * R * R * R * R) : list Artist :=
  let '(cx, cy, radius, alpha_val, lw) := c in
  [Patch {| center := (cx, cy); radius := radius; fill := false;
            edgecolor := "white"; circ_linewidth := lw;
            circ_alpha := alpha_val |};
   Patch {| center := (cx, cy); radius := radius * 0.6; fill := false;
            edgecolor := "white"; circ_linewidth := lw * 0.6;
            circ_alpha := alpha_val * 0.5 |}].

Definition grid_cross (i : R) : list Artist :=
  [Line2D [i; i] [0; 10] "white" 0.3 0.04 None;
   Line2D [0; 10] [i; i] "white" 0.3 0.04 None].

Definition corner_mark (c : R * R * R * R) : list Artist :=
  let '(cx, cy, dx, dy) := c in
  [Line2D [cx; cx + dx] [cy; cy] "white" 3 0.2 (Some "round"%string);
   Line2D [cx; cx] [cy; cy + dy] "white" 3 0.2 (Some "round"%string)].

(** The four arrays of the particle block and the generator after each. *)
Definition px_draw := uniform 0 10 n_particles (mt_seed 123).
Definition py_draw := uniform 0 10 n_particles (snd px_draw).
Definition sizes_draw := uniform 1 4 n_particles (snd py_draw).
Definition alphas_draw := uniform 0.05 0.15 n_particles (snd sizes_draw).

Definition dot (i : nat) : list Artist :=
  [Marker (nth i (fst px_draw) 0) (nth i (fst py_draw) 0) "o" "white"
          (nth i (fst sizes_draw) 0) (nth i (fst alphas_draw) 0)].

Definition particle_dots : list Artist := flat_map dot (seq 0 n_particles).

(** Everything a complete run draws, in order. *)
Definition all_artists : list Artist :=
  gradient_image
    ++ flat_map wave_stroke wave_configs
    ++ mesh_lines
    ++ flow_arrows
    ++ flat_map label equations
    ++ flat_map ring_pair circles
    ++ flat_map grid_cross (np.linspace 0.5 9.5 15)
    ++ flat_map corner_mark corner_elements
    ++ particle_dots.

(** The figure when it is saved. *)
Definition saved_figure : Figure :=
  {| figsize := (19.2, 10.8); fig_dpi := 200; artists := all_artists;
     xlim := (0, 10); ylim := (0, 10); axison := false;
     aspect := "equal"; tight_pad := Some 0; closed := false |}.

Definition png_image : ImageFile :=
  savefig_image get_tightbbox saved_figure PNG png_opts.
Definition jpg_image : ImageFile :=
  savefig_image get_tightbbox saved_figure JPEG jpg_opts.

(** ** Arrays as tables *)

(** The table of [f] over a list of row values and a list of column
    values. *)
Definition tabulate (f : R -> R -> R) (rows cols : list R) : list (list R) :=
  map (fun ri => map (fun cj => f ri cj) cols) rows.

(** *** The flow field as the specification words it *)

(** The twelve grid abscissae (and ordinates). *)
Definition grid_axis : list R := np.linspace 0.8 9.2 12.

(** Distance term: [r = sqrt(dx^2 + dy^2) + 0.1] with the displacement
    taken from the centre (5, 5). *)
Definition spec_r (xv yv : R) : R :=
  sqrt ((xv - 5) * (xv - 5) + (yv - 5) * (yv - 5)) + 0.1.

(** Rotational term: the displacement turned by a quarter turn,
    [(-dy, dx)], scaled by [exp(-r/4)/r]. *)
Definition spec_vortex (xv yv : R) : R * R :=
  let k := exp (- spec_r xv yv / 4) / spec_r xv yv in
  (k * - (yv - 5), k * (xv - 5)).

(** Inward term: [-0.15] times the displacement. *)
Definition spec_sink (xv yv : R) : R * R :=
  (-0.15 * (xv - 5), -0.15 * (yv - 5)).

Definition spec_U (xv yv : R) : R :=
  - (yv - 5) / spec_r xv yv * exp (- spec_r xv yv / 4) - 0.15 * (xv - 5).

Definition spec_V (xv yv : R) : R :=
  (xv - 5) / spec_r xv yv * exp (- spec_r xv yv / 4) - 0.15 * (yv - 5).

(** *** Draws of the generator *)

(** What NumPy promises of [random_sample]: a value of [[0, 1)]. *)
Definition unit_interval_rng : Prop :=
  forall s, 0 <= fst (random_sample s) < 1.

(** ** Independence from the generator's initial state *)

Definition same_but_rng (w1 w2 : World) : Prop :=
  fig w1 = fig w2 /\ files w1 = files w2 /\ stdout w1 = stdout w2 /\
  calls w1 = calls w2.

(** Two outcomes that differ at most in the generator state. *)
Definition agree {A} (o1 o2 : Outcome A) : Prop :=
  match o1, o2 with
  | Returned a w1, Returned b w2 => a = b /\ same_but_rng w1 w2
  | Raised w1, Raised w2 => same_but_rng w1 w2
  | _, _ => False
  end.

(** Two outcomes that are equal when the computation returns, and
    differ at most in the generator state when it raises. *)
Definition coincide {A} (o1 o2 : Outcome A) : Prop :=
  match o1, o2 with
  | Returned a w1, Returned b w2 => a = b /\ w1 = w2
  | Raised w1, Raised w2 => same_but_rng w1 w2
  | _, _ => False
  end.

(** [m] does not look at the generator. *)
Definition oblivious {A} (m : Py A) : Prop :=
  forall w1 w2, same_but_rng w1 w2 -> agree (m w1) (m w2).

(** [m] forgets the generator state it started from. *)
Definition reseeds {A} (m : Py A) : Prop :=
  forall w1 w2, same_but_rng w1 w2 -> coincide (m w1) (m w2).

(** ** Invariants of the drawn content *)

Definition alpha_ok (a : Artist) : Prop := 0 <= alpha_of a <= 1.

Definition opacities_valid (w : World) : Prop :=
  Forall alpha_ok (artists (fig w)).

(** [keeps J m Q]: [m] maintains [J], whether it returns (then with a
    value in [Q]) or raises. *)
Definition keeps {A} (J : World -> Prop) (m : Py A) (Q : A -> Prop) : Prop :=
  triple J m (fun a w => Q a /\ J w) J.

Definition any_value {A} (a : A) : Prop := True.

(** The kind of drawing call an artist comes from. *)
Inductive Kind :=
| KImage | KLine | KMarker | KTriplot | KQuiver | KText | KCircle.

Definition kind_of (a : Artist) : Kind :=
  match a with
  | AxesImage _ _ _ => KImage
  | Line2D _ _ _ _ _ _ => KLine
  | Marker _ _ _ _ _ _ => KMarker
  | TriLines _ _ _ _ _ => KTriplot
  | Quiver _ _ _ _ _ _ _ _ _ _ => KQuiver
  | Text _ _ _ _ _ _ _ _ _ _ _ => KText
  | Patch _ => KCircle
  end.

(** The canvas is the square [[0, 10] x [0, 10]]. *)
Definition in_canvas (v : R) : Prop := 0 <= v <= 10.

(** The random coordinates an artist carries lie on the canvas. *)
Definition points_in_canvas (a : Artist) : Prop :=
  match a with
  | TriLines tr _ _ _ _ =>
      Forall in_canvas (tri_x tr) /\ Forall in_canvas (tri_y tr)
  | Marker xv yv _ _ _ _ => in_canvas xv /\ in_canvas yv
  | _ => True
  end.

(** A mesh drawn for a region: as many points as asked for, all inside
    the rectangle of the region, itself on the canvas. *)
Definition mesh_of_region (region : list R * nat) (a : Artist) : Prop :=
  let x0 := nth 0 (fst region) 0 in
  let x1 := nth 1 (fst region) 0 in
  let y0 := nth 2 (fst region) 0 in
  let y1 := nth 3 (fst region) 0 in
  exists mx my,
    a = TriLines {| tri_x := mx; tri_y := my |} "white" 0.6 0.12 "-" /\
    length mx = snd region /\ length my = snd region /\
    Forall (fun v => x0 <= v <= x1) mx /\
    Forall (fun v => y0 <= v <= y1) my /\
    0 <= x0 /\ x1 <= 10 /\ 0 <= y0 /\ y1 <= 10.

(** The inner circle of a pair, relative to the outer one. *)
Definition concentric (outer inner : Circle) : Prop :=
  center inner = center outer /\
  radius inner = 0.6 * radius outer /\
  circ_linewidth inner = 0.6 * circ_linewidth outer /\
  circ_alpha inner = 0.5 * circ_alpha outer /\
  fill outer = false /\ fill inner = false.

Definition circle_in_canvas (c : Circle) : Prop :=
  0 <= fst (center c) - radius c /\ fst (center c) + radius c <= 10 /\
  0 <= snd (center c) - radius c /\ snd (center c) + radius c <= 10.

(** What the loop draws for one tuple of [circles]. *)
Definition pair_drawn (c : R * R * R * R * R) : Prop :=
  let '(cx, cy, rad, alpha_val, lw) := c in
  exists outer inner,
    ring_pair c = [Patch outer; Patch inner] /\
    center outer = (cx, cy) /\ radius outer = rad /\
    circ_linewidth outer = lw /\ circ_alpha outer = alpha_val /\
    concentric outer inner /\
    circle_in_canvas outer /\ circle_in_canvas inner.

(** ** Further properties: definitions *)

(** A pixel of a floating-point RGB image is valid when each channel
    lies in [[0, 1]]. *)
Definition valid_rgb (p : R * R * R) : Prop :=
  let '(rv, gv, bv) := p in
  0 <= rv <= 1 /\ 0 <= gv <= 1 /\ 0 <= bv <= 1.

(** Red below green below blue. *)
Definition blue_dominant (p : R * R * R) : Prop :=
  let '(rv, gv, bv) := p in rv <= gv /\ gv <= bv.

(** The pixel of [background] at ordinate [yv] and abscissa [xv] of the
    unit square (lines 29-38). *)
Definition gradient_pixel (yv xv : R) : R * R * R :=
  let fade := 1 - 0.15 * exp (- sqrt ((xv - center_x) ^ 2 + (yv - center_y) ^ 2) * 3) in
  ((nth 0 color_dark 0 * (1 - yv) + nth 0 color_light 0 * yv) * (1 - 0.2 * xv) * fade,
   (nth 1 color_dark 0 * (1 - yv) + nth 1 color_light 0 * yv) * (1 - 0.15 * xv) * fade,
   (nth 2 color_dark 0 * (1 - yv) + nth 2 color_light 0 * yv) * (1 - 0.1 * xv) * fade).

(** *** What a run has drawn when it stops *)

(** The generator state and the artists on the axes. *)
Definition st (s : rng) (L : list Artist) (w : World) : Prop :=
  rng_state w = s /\ artists (fig w) = L.

(** The axes hold [L] and an initial part of [X]. *)
Definition drawn_prefix (L X : list Artist) (w : World) : Prop :=
  exists xs rest, X = xs ++ rest /\ artists (fig w) = L ++ xs.

(** [paints m s L phi s' X]: started with generator state [s] and artists
    [L], [m] returns a value in [phi] and leaves state [s'] and artists
    [L ++ X]; if it raises, it leaves [L] and an initial part of [X]. *)
Definition paints {A} (m : Py A) (s : rng) (L : list Artist)
           (phi : A -> Prop) (s' : rng) (X : list Artist) : Prop :=
  triple (st s L) m (fun a w => phi a /\ st s' (L ++ X) w) (drawn_prefix L X).

(** *** Invariants of every artist *)

(** The coordinates an artist is placed at lie on the canvas. *)
Definition within_canvas (a : Artist) : Prop :=
  match a with
  | AxesImage _ (x0, x1, y0, y1) _ =>
      in_canvas x0 /\ in_canvas x1 /\ in_canvas y0 /\ in_canvas y1
  | Line2D xs ys _ _ _ _ => Forall in_canvas xs /\ Forall in_canvas ys
  | Marker xv yv _ _ _ _ => in_canvas xv /\ in_canvas yv
  | TriLines tr _ _ _ _ =>
      Forall in_canvas (tri_x tr) /\ Forall in_canvas (tri_y tr)
  | Quiver gx gy _ _ _ _ _ _ _ _ =>
      Forall (Forall in_canvas) gx /\ Forall (Forall in_canvas) gy
  | Text xv yv _ _ _ _ _ _ _ _ _ => in_canvas xv /\ in_canvas yv
  | Patch c => circle_in_canvas c
  end.

(** The arrays of a drawing call fit together: the conditions under which
    [plot], [Triangulation] and [quiver] reject their arguments. *)
Definition well_shaped (a : Artist) : Prop :=
  match a with
  | AxesImage data _ _ => exists n, Forall (fun row => length row = n) data
  | Line2D xs ys _ _ _ _ => length xs = length ys
  | TriLines tr _ _ _ _ =>
      length (tri_x tr) = length (tri_y tr) /\ (3 <= length (tri_x tr))%nat
  | Quiver gx gy gu gv _ _ _ _ _ _ =>
      map (@length R) gy = map (@length R) gx /\
      map (@length R) gu = map (@length R) gx /\
      map (@length R) gv = map (@length R) gx
  | _ => True
  end.

(** How a particle is drawn. *)
Definition particle_style (a : Artist) : Prop :=
  match a with
  | Marker _ _ marker color markersize alpha =>
      marker = "o"%string /\ color = "white"%string /\
      1 <= markersize <= 4 /\ 0.05 <= alpha <= 0.15
  | _ => True
  end.

(** *** Files and output *)

(** The call counter, the directory and the output. *)
Definition io (c : nat) (D : gmap string ImageFile) (O : list string)
           (w : World) : Prop :=
  calls w = c /\ files w = D /\ stdout w = O.

(** [quiet n m]: [m] makes [n] calls and neither writes a file nor prints,
    also when it raises. *)
Definition quiet {A} (n : nat) (m : Py A) : Prop :=
  forall c D O,
    triple (io c D O) m (fun _ => io (c + n) D O)
           (fun w' => exists c', (c <= c' < c + n)%nat /\ io c' D O w').

(** Where a run that started in the directory [disk] can be: before the
    first [savefig] (at most 162 calls done), between the two, or after the
    second. *)
Definition phase (disk : gmap string ImageFile) (w : World) : Prop :=
  ((calls w <= 162)%nat /\ files w = disk /\ stdout w = [])
  \/ (calls w = 163%nat /\
      (exists F, files w
                 = <[png_name := savefig_image get_tightbbox F PNG png_opts]> disk) /\
      stdout w = [])
  \/ ((164 <= calls w <= 168)%nat /\
      (exists F, files w
                 = <[jpg_name := savefig_image get_tightbbox F JPEG jpg_opts]>
                     (<[png_name := savefig_image get_tightbbox F PNG png_opts]> disk)) /\
      stdout w = take (calls w - 165) status_lines).

(** ** Proofs *)

Lemma bind_eq {A B} (m : Py A) (f : A -> Py B) w :
  (m ≫= f) w = match m w with
                | Returned a w' => f a w'
                | Raised w' => Raised w'
                end.
Proof. reflexivity. Qed.

Lemma triple_ret {A} (a : A) (P : World -> Prop) Q E :
  (forall w, P w -> Q a w) -> triple P (mret a) Q E.
Proof. intros H w Hw. apply H, Hw. Qed.

Lemma triple_bind {A B} (m : Py A) (f : A -> Py B) P Q R E :
  triple P m Q E ->
  (forall a, triple (Q a) (f a) R E) ->
  triple P (m ≫= f) R E.
Proof.
  intros Hm Hf w Hw. rewrite bind_eq.
  specialize (Hm w Hw). destruct (m w) as [a w'|w']; [|exact Hm].
  apply (Hf a w' Hm).
Qed.

Lemma triple_call {A} (f : World -> A * World) (P : World -> Prop) Q E :
  (forall w, P w -> raises (calls w) = true -> E w) ->
  (forall w, P w -> raises (calls w) = false ->
             Q (fst (f w)) (tick (snd (f w)))) ->
  triple P (call f) Q E.
Proof.
  intros HE HQ w Hw. unfold call.
  destruct (raises (calls w)) eqn:Hr; [apply HE | apply HQ]; assumption.
Qed.

Lemma triple_conseq {A} (m : Py A) (P P' : World -> Prop)
      (Q Q' : A -> World -> Prop) (E E' : World -> Prop) :
  triple P m Q E ->
  (forall w, P' w -> P w) ->
  (forall a w, Q a w -> Q' a w) ->
  (forall w, E w -> E' w) ->
  triple P' m Q' E'.
Proof.
  intros H HP HQ HE w Hw. specialize (H w (HP w Hw)).
  destruct (m w); [apply HQ | apply HE]; exact H.
Qed.

(** The loop rule: the invariant is indexed by the elements already
    processed. *)
Lemma triple_for_from {A} (I : list A -> World -> Prop) (body : A -> Py unit)
      E (l : list A) :
  forall pre,
    (forall d a, In a l -> triple (I d) (body a) (fun _ => I (d ++ [a])) E) ->
    triple (I pre) (for_ l body) (fun _ => I (pre ++ l)) E.
Proof.
  induction l as [|a l IH]; intros pre Hbody.
  - apply triple_ret. intros w Hw. rewrite app_nil_r. exact Hw.
  - cbn [for_]. eapply triple_bind.
    + apply Hbody. left. reflexivity.
    + intros u. eapply triple_conseq.
      * apply (IH (pre ++ [a])). intros d b Hb. apply Hbody. right. exact Hb.
      * auto.
      * cbn beta. intros v w Hw. rewrite <- app_assoc in Hw. exact Hw.
      * auto.
Qed.

Lemma triple_for {A} (I : list A -> World -> Prop) (body : A -> Py unit)
      E (l : list A) :
  (forall d a, In a l -> triple (I d) (body a) (fun _ => I (d ++ [a])) E) ->
  triple (I []) (for_ l body) (fun _ => I l) E.
Proof. intros H. apply (triple_for_from I body E l [] H). Qed.

(** *** Counting calls *)

Lemma counts_ret {A} (a : A) : counts 0 (mret a).
Proof.
  intros c. apply triple_ret. intros w Hw. split; [lia|].
  intros k Hk. lia.
Qed.

Lemma counts_call {A} (f : World -> A * World)
      (Hf : forall w, calls (snd (f w)) = calls w) :
  counts 1 (call f).
Proof.
  intros c. apply triple_call.
  - intros w Hw Hr. cbn beta in Hw. subst c.
    repeat split; [lia| lia | exact Hr |].
    intros k Hk. lia.
  - intros w Hw Hr. cbn beta in Hw. cbn. rewrite Hf. subst c. split; [lia|].
    intros k Hk. assert (k = calls w) by lia. subst k. exact Hr.
Qed.

Lemma counts_bind {A B} (m : Py A) (f : A -> Py B) n k :
  counts n m -> (forall a, counts k (f a)) -> counts (n + k) (m ≫= f).
Proof.
  intros Hm Hf c. eapply triple_bind.
  - eapply triple_conseq; [apply (Hm c) | auto | |].
    + intros a w H. exact H.
    + cbn beta. intros w (Hc & Hr & Hcl). repeat split; [lia | lia | exact Hr | exact Hcl].
  - intros a w (Hc & Hcl).
    specialize (Hf a (c + n)%nat w Hc).
    destruct (f a w) as [b w'|w'].
    + destruct Hf as (Hc' & Hcl'). split; [lia|].
      intros j Hj. destruct (Nat.lt_ge_cases j (c + n)).
      * apply Hcl. lia.
      * apply Hcl'. lia.
    + destruct Hf as (Hc' & Hr & Hcl'). repeat split; [lia | lia | exact Hr |].
      intros j Hj. destruct (Nat.lt_ge_cases j (c + n)).
      * apply Hcl. lia.
      * apply Hcl'. lia.
Qed.

Lemma counts_for {A} (l : list A) (body : A -> Py unit) k :
  (forall a, counts k (body a)) -> counts (length l * k) (for_ l body).
Proof.
  intros Hb. induction l as [|a l IH]; cbn [for_ length Nat.mul].
  - apply counts_ret.
  - apply counts_bind; [apply Hb | intros u; exact IH].
Qed.

Lemma counts_eq {A} (m : Py A) n n' :
  counts n m -> n = n' -> counts n' m.
Proof. intros H <-. exact H. Qed.

Lemma format_of_png : format_of png_name = Some PNG.
Proof. reflexivity. Qed.

Lemma format_of_jpg : format_of jpg_name = Some JPEG.
Proof. reflexivity. Qed.

Ltac head_of tm :=
  lazymatch tm with
  | ?f _ => head_of f
  | _ => tm
  end.

Ltac count :=
  cbn beta;
  lazymatch goal with
  | |- counts _ (mret _) => apply counts_ret
  | |- counts _ (mbind _ _) => eapply counts_bind; [count | intros ?; count]
  | |- counts _ (for_ _ _) => eapply counts_for; intros ?; count
  | |- counts _ (call _) => apply counts_call; intros ?; reflexivity
  | |- counts _ (match ?v with _ => _ end) => destruct v; count
  | |- counts _ (plt_savefig png_name _) =>
      unfold plt_savefig; rewrite format_of_png; count
  | |- counts _ (plt_savefig jpg_name _) =>
      unfold plt_savefig; rewrite format_of_jpg; count
  | |- counts _ ?m => let h := head_of m in unfold h; count
  end.

Lemma counts_main : counts n_calls main.
Proof. eapply counts_eq; [count | reflexivity]. Qed.

(** *** Effects on the state *)

Lemma add_artists_nil f : add_artists [] f = f.
Proof. destruct f. unfold add_artists. cbn. rewrite app_nil_r. reflexivity. Qed.

Lemma add_artists_app xs ys f :
  add_artists ys (add_artists xs f) = add_artists (xs ++ ys) f.
Proof. unfold add_artists. cbn. rewrite app_assoc. reflexivity. Qed.

Lemma effect_call {A} (f : World -> A * World) s F D O a s' F' D' O' :
  (forall w, at_ s F D O w ->
             fst (f w) = a /\ at_ s' F' D' O' (snd (f w))) ->
  triple (at_ s F D O) (call f)
         (fun b w' => b = a /\ at_ s' F' D' O' w') anything.
Proof.
  intros H. apply triple_call.
  - intros. exact Logic.I.
  - intros w Hw _. destruct (H w Hw) as (Ha & H1 & H2 & H3 & H4).
    split; [exact Ha|]. repeat split; assumption.
Qed.

Lemma triple_pure_pre {A} (phi : Prop) (P : World -> Prop) (m : Py A) Q E :
  (phi -> triple P m Q E) -> triple (fun w => phi /\ P w) m Q E.
Proof. intros H w (Hphi & Hw). apply (H Hphi w Hw). Qed.

Lemma triple_drop_value (phi : Prop) (P : World -> Prop) E :
  triple (fun w => phi /\ P w) (mret tt) (fun _ => P) E.
Proof. intros w (_ & Hw). exact Hw. Qed.

Lemma loop_fold_pure {A} (g : A -> list Artist) (l : list A) (s : rng) :
  loop_fold (fun a s0 => (g a, s0)) l s = (flat_map g l, s).
Proof.
  induction l as [|a l IH]; [reflexivity|].
  cbn [loop_fold flat_map fst snd]. rewrite IH. reflexivity.
Qed.

Lemma effect_for {A} (step : A -> rng -> list Artist * rng)
      (body : A -> Py unit) (l : list A) :
  (forall a s F D O, In a l ->
      triple (at_ s F D O) (body a)
             (fun _ => at_ (snd (step a s)) (add_artists (fst (step a s)) F) D O)
             anything) ->
  forall s F D O,
    triple (at_ s F D O) (for_ l body)
           (fun _ => at_ (snd (loop_fold step l s))
                         (add_artists (fst (loop_fold step l s)) F) D O)
           anything.
Proof.
  induction l as [|a l IH]; intros Hb s F D O.
  - apply triple_ret. intros w Hw. cbn [loop_fold fst snd].
    rewrite add_artists_nil. exact Hw.
  - cbn [for_ loop_fold fst snd]. eapply triple_bind.
    + apply Hb. left. reflexivity.
    + intros u. eapply triple_conseq.
      * apply IH. intros b s0 F0 D0 O0 Hin. apply Hb. right. exact Hin.
      * intros w Hw. exact Hw.
      * cbn beta. intros v w Hw. rewrite add_artists_app in Hw. exact Hw.
      * intros w Hw. exact Hw.
Qed.

Lemma effect_for_pure {A} (g : A -> list Artist) (body : A -> Py unit)
      (l : list A) :
  (forall a s F D O, In a l ->
      triple (at_ s F D O) (body a)
             (fun _ => at_ s (add_artists (g a) F) D O) anything) ->
  forall s F D O,
    triple (at_ s F D O) (for_ l body)
           (fun _ => at_ s (add_artists (flat_map g l) F) D O) anything.
Proof.
  intros Hb s F D O.
  pose proof (effect_for (fun a s0 => (g a, s0)) body l) as H.
  cbn [fst snd] in H. specialize (H Hb s F D O).
  rewrite loop_fold_pure in H. exact H.
Qed.

Ltac eff_call :=
  eapply effect_call;
  let s0 := fresh "s" in let f0 := fresh "f" in let d0 := fresh "d" in
  let o0 := fresh "o" in let c0 := fresh "c" in
  intros [s0 f0 d0 o0 c0] (? & ? & ? & ?);
  cbn [rng_state fig files stdout fst snd draw on_fig set_fig set_rng
       set_files set_stdout] in *;
  subst s0 f0 d0 o0; unfold at_; repeat split;
  cbn [rng_state fig files stdout fst snd draw on_fig set_fig set_rng
       set_files set_stdout];
  reflexivity.

Ltac eff :=
  cbn beta;
  lazymatch goal with
  | |- triple _ (mbind _ _) _ _ =>
      eapply triple_bind;
      [ eff
      | let a := fresh "a" in
        intros a; cbn beta; apply triple_pure_pre; intros ->; eff ]
  | |- triple _ (call _) _ _ => eff_call
  | |- triple _ (plt_savefig png_name _) _ _ =>
      unfold plt_savefig; rewrite format_of_png; eff
  | |- triple _ (plt_savefig jpg_name _) _ _ =>
      unfold plt_savefig; rewrite format_of_jpg; eff
  | |- triple _ ?m _ _ => let h := head_of m in unfold h; eff
  end.

(** Bring a block into the shape the chaining tactic expects. *)
Ltac block :=
  eapply triple_conseq;
  [ eff
  | intros ? H; exact H
  | cbn beta; intros ? ? (_ & H); exact H
  | intros ? H; exact H ].

Lemma effect_draw_background s F D O :
  triple (at_ s F D O) draw_background
         (fun _ => at_ s (set_aspect "auto" (add_artists gradient_image F)) D O)
         anything.
Proof. block. Qed.

Lemma effect_draw_waves s F D O :
  triple (at_ s F D O) draw_waves
         (fun _ => at_ s (add_artists (flat_map wave_stroke wave_configs) F) D O)
         anything.
Proof.
  apply effect_for_pure.
  intros [[[[freq phase] alpha_val] lw] offset] s0 F0 D0 O0 _. block.
Qed.

Ltac fig_eq :=
  unfold add_artists, add_artist;
  cbn [figsize fig_dpi artists xlim ylim axison aspect tight_pad closed];
  rewrite <- ?app_assoc; reflexivity.

Lemma effect_draw_mesh s F D O :
  triple (at_ s F D O) draw_mesh
         (fun _ => at_ (snd (loop_fold mesh_step mesh_regions (mt_seed 42)))
                       (add_artists mesh_lines F) D O)
         anything.
Proof.
  unfold draw_mesh. eapply triple_bind.
  - unfold np_random_seed. eff_call.
  - intros a. cbn beta. apply triple_pure_pre. intros ->.
    apply (effect_for mesh_step).
    intros [bounds n_pts] s0 F0 D0 O0 _. block.
Qed.

Lemma effect_draw_flow_field s F D O :
  triple (at_ s F D O) draw_flow_field
         (fun _ => at_ s (add_artists flow_arrows F) D O) anything.
Proof. block. Qed.

Lemma effect_draw_equations s F D O :
  triple (at_ s F D O) draw_equations
         (fun _ => at_ s (add_artists (flat_map label equations) F) D O)
         anything.
Proof.
  apply effect_for_pure.
  intros [[eq [x_pos y_pos]] fsize] s0 F0 D0 O0 _. block.
Qed.

Lemma effect_draw_circles s F D O :
  triple (at_ s F D O) draw_circles
         (fun _ => at_ s (add_artists (flat_map ring_pair circles) F) D O)
         anything.
Proof.
  apply effect_for_pure.
  intros [[[[cx cy] radius] alpha_val] lw] s0 F0 D0 O0 _.
  eapply triple_conseq;
    [ eff | intros ? H; exact H | cbn beta | intros ? H; exact H ].
  intros u w (_ & H1 & H2 & H3 & H4). repeat split; try assumption.
  rewrite H2. fig_eq.
Qed.

Lemma effect_draw_grid s F D O :
  triple (at_ s F D O) draw_grid
         (fun _ => at_ s (add_artists
                            (flat_map grid_cross (np.linspace 0.5 9.5 15)) F)
                       D O)
         anything.
Proof.
  apply effect_for_pure. intros i s0 F0 D0 O0 _.
  eapply triple_conseq;
    [ eff | intros ? H; exact H | cbn beta | intros ? H; exact H ].
  intros u w (_ & H1 & H2 & H3 & H4). repeat split; try assumption.
  rewrite H2. fig_eq.
Qed.

Lemma effect_draw_corners s F D O :
  triple (at_ s F D O) draw_corners
         (fun _ => at_ s (add_artists
                            (flat_map corner_mark corner_elements) F) D O)
         anything.
Proof.
  apply effect_for_pure. intros [[[cx cy] dx0] dy0] s0 F0 D0 O0 _.
  eapply triple_conseq;
    [ eff | intros ? H; exact H | cbn beta | intros ? H; exact H ].
  intros u w (_ & H1 & H2 & H3 & H4). repeat split; try assumption.
  rewrite H2. fig_eq.
Qed.

Lemma effect_draw_particles s F D O :
  triple (at_ s F D O) draw_particles
         (fun _ => at_ (snd alphas_draw) (add_artists particle_dots F) D O)
         anything.
Proof.
  unfold draw_particles.
  eapply triple_bind; [unfold np_random_seed; eff_call|].
  intros a; cbn beta; apply triple_pure_pre; intros ->.
  eapply triple_bind; [unfold np_random_uniform; eff_call|].
  intros px; cbn beta; apply triple_pure_pre; intros ->.
  eapply triple_bind; [unfold np_random_uniform; eff_call|].
  intros py; cbn beta; apply triple_pure_pre; intros ->.
  eapply triple_bind; [unfold np_random_uniform; eff_call|].
  intros sizes; cbn beta; apply triple_pure_pre; intros ->.
  eapply triple_bind; [unfold np_random_uniform; eff_call|].
  intros alphas; cbn beta; apply triple_pure_pre; intros ->.
  apply (effect_for_pure dot).
  intros i s0 F0 D0 O0 _. block.
Qed.

Lemma effect_clean_up s F D O :
  triple (at_ s F D O) clean_up
         (fun _ => at_ s (set_aspect "equal"
                            (axis_off (set_ylim 0 10 (set_xlim 0 10 F)))) D O)
         anything.
Proof. block. Qed.

Lemma effect_save_outputs s F D O :
  triple (at_ s F D O) save_outputs
         (fun _ => at_ s (close (tight_layout 0 F))
                       (<[jpg_name := savefig_image get_tightbbox
                                        (tight_layout 0 F) JPEG jpg_opts]>
                          (<[png_name := savefig_image get_tightbbox
                                           (tight_layout 0 F) PNG png_opts]> D))
                       O)
         anything.
Proof. block. Qed.

Lemma effect_report s F D O :
  triple (at_ s F D O) report
         (fun _ => at_ s F D (O ++ status_lines)) anything.
Proof.
  eapply triple_conseq;
    [ eff | intros ? H; exact H | cbn beta | intros ? H; exact H ].
  intros u w (_ & H1 & H2 & H3 & H4). repeat split; try assumption.
  rewrite H4. unfold status_lines. rewrite <- !app_assoc. reflexivity.
Qed.

Lemma saved_figure_eq :
  tight_layout 0
    (set_aspect "equal"
       (axis_off
          (set_ylim 0 10
             (set_xlim 0 10
                (add_artists particle_dots
                (add_artists (flat_map corner_mark corner_elements)
                (add_artists (flat_map grid_cross (np.linspace 0.5 9.5 15))
                (add_artists (flat_map ring_pair circles)
                (add_artists (flat_map label equations)
                (add_artists flow_arrows
                (add_artists mesh_lines
                (add_artists (flat_map wave_stroke wave_configs)
                (set_aspect "auto"
                (add_artists gradient_image
                   (new_figure (19.2, 10.8) 200)))))))))))))))
  = saved_figure.
Proof.
  cbv [saved_figure tight_layout set_aspect axis_off set_ylim set_xlim
       add_artists new_figure figsize fig_dpi artists xlim ylim axison
       aspect tight_pad closed].
  unfold all_artists. rewrite app_nil_l, <- !app_assoc. reflexivity.
Qed.

(** The state a complete run leaves. *)
Lemma effect_main s F D O :
  triple (at_ s F D O) main
         (fun _ => at_ (snd alphas_draw) (close saved_figure)
                       (<[jpg_name := jpg_image]> (<[png_name := png_image]> D))
                       (O ++ status_lines))
         anything.
Proof.
  unfold main.
  eapply triple_conseq;
    [ | intros ? H; exact H | cbn beta | intros ? H; exact H ].
  - eapply triple_bind; [unfold plt_figure; eff_call|].
    intros a; cbn beta; apply triple_pure_pre; intros ->.
    eapply triple_bind; [unfold plt_gca; eff_call|].
    intros a; cbn beta; apply triple_pure_pre; intros ->.
    eapply triple_bind; [apply effect_draw_background|]. intros u1; cbn beta.
    eapply triple_bind; [apply effect_draw_waves|]. intros u2; cbn beta.
    eapply triple_bind; [apply effect_draw_mesh|]. intros u3; cbn beta.
    eapply triple_bind; [apply effect_draw_flow_field|]. intros u4; cbn beta.
    eapply triple_bind; [apply effect_draw_equations|]. intros u5; cbn beta.
    eapply triple_bind; [apply effect_draw_circles|]. intros u6; cbn beta.
    eapply triple_bind; [apply effect_draw_grid|]. intros u7; cbn beta.
    eapply triple_bind; [apply effect_draw_corners|]. intros u8; cbn beta.
    eapply triple_bind; [apply effect_draw_particles|]. intros u9; cbn beta.
    eapply triple_bind; [apply effect_clean_up|]. intros u10; cbn beta.
    eapply triple_bind; [apply effect_save_outputs|]. intros u11; cbn beta.
    apply effect_report.
  - intros u w (H1 & H2 & H3 & H4).
    rewrite saved_figure_eq in H2, H3.
    repeat split; assumption.
Qed.

(** *** The two ways a run can end *)

Lemma find_none a n :
  clean a (a + n) -> List.find raises (seq a n) = None.
Proof.
  revert a. induction n as [|n IH]; intros a H; [reflexivity|].
  cbn [seq List.find]. rewrite (H a) by lia.
  apply IH. intros k Hk. apply H. lia.
Qed.

Lemma find_first a n k :
  (a <= k < a + n)%nat -> raises k = true -> clean a k ->
  List.find raises (seq a n) = Some k.
Proof.
  revert a. induction n as [|n IH]; intros a Hk Hr Hc; [lia|].
  cbn [seq List.find]. destruct (Nat.eq_dec a k) as [->|Hne].
  - rewrite Hr. reflexivity.
  - rewrite (Hc a) by lia. apply IH; [lia | exact Hr |].
    intros j Hj. apply Hc. lia.
Qed.

Lemma run_cases entropy disk :
  match first_fault n_calls with
  | None =>
      exists w, run entropy disk = Returned tt w /\ calls w = n_calls /\
                at_ (snd alphas_draw) (close saved_figure)
                    (<[jpg_name := jpg_image]> (<[png_name := png_image]> disk))
                    status_lines w
  | Some k =>
      exists w, run entropy disk = Raised w /\ calls w = k /\
                (k < n_calls)%nat
  end.
Proof.
  pose proof (counts_main 0%nat (initial_world entropy disk) eq_refl) as Hc.
  assert (Hat : at_ entropy (new_figure (6.4, 4.8) 100) disk []
                    (initial_world entropy disk))
    by (repeat split; reflexivity).
  pose proof (effect_main _ _ _ _ _ Hat) as He.
  unfold run, first_fault.
  destruct (main (initial_world entropy disk)) as [[] w|w].
  - destruct Hc as (Hn & Hcl). rewrite (find_none 0 n_calls Hcl).
    exists w. repeat split; try apply He. exact Hn.
  - destruct Hc as (Hk & Hr & Hcl).
    rewrite (find_first 0 n_calls (calls w)) by (assumption || lia).
    exists w. repeat split. lia.
Qed.

Lemma run_success entropy disk :
  first_fault n_calls = None ->
  exists w, run entropy disk = Returned tt w /\ calls w = n_calls /\
            rng_state w = snd alphas_draw /\
            fig w = close saved_figure /\
            files w = <[jpg_name := jpg_image]> (<[png_name := png_image]> disk) /\
            stdout w = status_lines.
Proof.
  intros H. pose proof (run_cases entropy disk) as Hr. rewrite H in Hr.
  destruct Hr as (w & Hrun & Hn & H1 & H2 & H3 & H4).
  exists w. repeat split; assumption.
Qed.

Lemma png_jpg_names : png_name <> jpg_name.
Proof. discriminate. Qed.

(** *** Arrays as tables *)

Lemma zip_with_map_same {A} (h : R -> R -> R) (f g : A -> R) (l : list A) :
  zip_with h (map f l) (map g l) = map (fun c => h (f c) (g c)) l.
Proof.
  induction l as [|a l IH]; [reflexivity|].
  cbn [map zip_with]. rewrite IH. reflexivity.
Qed.

Lemma zip2d_tabulate h f g rows cols :
  np.zip2d h (tabulate f rows cols) (tabulate g rows cols)
  = tabulate (fun ri cj => h (f ri cj) (g ri cj)) rows cols.
Proof.
  unfold np.zip2d, tabulate.
  induction rows as [|ri rows IH]; [reflexivity|].
  cbn [map zip_with]. rewrite IH, zip_with_map_same. reflexivity.
Qed.

Lemma map2d_tabulate k f rows cols :
  np.map2d k (tabulate f rows cols)
  = tabulate (fun ri cj => k (f ri cj)) rows cols.
Proof.
  unfold np.map2d, tabulate. rewrite map_map.
  apply map_ext. intros ri. rewrite map_map. reflexivity.
Qed.

Lemma tabulate_ext f g rows cols :
  (forall ri cj, f ri cj = g ri cj) ->
  tabulate f rows cols = tabulate g rows cols.
Proof.
  intros H. unfold tabulate. apply map_ext. intros ri.
  apply map_ext. intros cj. apply H.
Qed.

Lemma mgrid_rows a b n c d m :
  fst (np.mgrid a b n c d m)
  = tabulate (fun ri _ => ri) (np.linspace a b n) (np.linspace c d m).
Proof. reflexivity. Qed.

Lemma mgrid_cols a b n c d m :
  snd (np.mgrid a b n c d m)
  = tabulate (fun _ cj => cj) (np.linspace a b n) (np.linspace c d m).
Proof.
  unfold np.mgrid, tabulate. cbn [snd]. apply map_ext. intros ri.
  symmetry. apply map_id.
Qed.

Lemma linspace_length a b n : length (np.linspace a b n) = n.
Proof. unfold np.linspace. rewrite length_map, length_seq. reflexivity. Qed.

Lemma X_grid_table : X_grid = tabulate (fun _ xv => xv) grid_axis grid_axis.
Proof. unfold X_grid. apply mgrid_cols. Qed.

Lemma Y_grid_table : Y_grid = tabulate (fun yv _ => yv) grid_axis grid_axis.
Proof. reflexivity. Qed.

Lemma dx_table : dx = tabulate (fun _ xv => xv - 5.0) grid_axis grid_axis.
Proof. unfold dx. rewrite X_grid_table, map2d_tabulate. reflexivity. Qed.

Lemma dy_table : dy = tabulate (fun yv _ => yv - 5.0) grid_axis grid_axis.
Proof. unfold dy. rewrite Y_grid_table, map2d_tabulate. reflexivity. Qed.

Lemma r_table :
  r = tabulate (fun yv xv => sqrt ((xv - 5.0) ^ 2 + (yv - 5.0) ^ 2) + 0.1)
               grid_axis grid_axis.
Proof. unfold r. rewrite dx_table, dy_table, zip2d_tabulate. reflexivity. Qed.

Lemma spec_r_eq xv yv :
  sqrt ((xv - 5.0) ^ 2 + (yv - 5.0) ^ 2) + 0.1 = spec_r xv yv.
Proof. unfold spec_r. do 2 f_equal. lra. Qed.

Lemma U_table : U = tabulate (fun yv xv => spec_U xv yv) grid_axis grid_axis.
Proof.
  unfold U, U_spiral.
  rewrite dy_table, r_table, dx_table, !zip2d_tabulate.
  apply tabulate_ext. intros yv xv. rewrite spec_r_eq.
  unfold spec_U. lra.
Qed.

Lemma V_table : V = tabulate (fun yv xv => spec_V xv yv) grid_axis grid_axis.
Proof.
  unfold V, V_spiral.
  rewrite dy_table, r_table, dx_table, !zip2d_tabulate.
  apply tabulate_ext. intros yv xv. rewrite spec_r_eq.
  unfold spec_V. lra.
Qed.

Lemma spec_r_pos xv yv : 0.1 <= spec_r xv yv.
Proof.
  unfold spec_r.
  pose proof (sqrt_pos ((xv - 5) * (xv - 5) + (yv - 5) * (yv - 5))). lra.
Qed.

(** *** Draws of the generator *)

Lemma random_samples_length n s : length (fst (random_samples n s)) = n.
Proof.
  revert s. induction n as [|n IH]; intros s; [reflexivity|].
  cbn [random_samples]. destruct (random_sample s) as [u s1].
  specialize (IH s1). destruct (random_samples n s1) as [us s2].
  cbn [fst length] in *. rewrite IH. reflexivity.
Qed.

Lemma random_samples_range n s :
  unit_interval_rng ->
  Forall (fun u => 0 <= u < 1) (fst (random_samples n s)).
Proof.
  intros Hs. revert s. induction n as [|n IH]; intros s; [constructor|].
  cbn [random_samples]. pose proof (Hs s) as Hu.
  destruct (random_sample s) as [u s1].
  specialize (IH s1). destruct (random_samples n s1) as [us s2].
  cbn [fst] in *. constructor; assumption.
Qed.

Lemma uniform_length low high n s : length (fst (uniform low high n s)) = n.
Proof.
  unfold uniform. cbn [fst]. rewrite length_map. apply random_samples_length.
Qed.

Lemma uniform_range low high n s :
  unit_interval_rng -> low <= high ->
  Forall (fun v => low <= v <= high) (fst (uniform low high n s)).
Proof.
  intros Hs Hlh. unfold uniform. cbn [fst]. apply Forall_map.
  eapply Forall_impl; [apply (random_samples_range n s Hs)|].
  cbn beta. intros u Hu. split; nra.
Qed.

Lemma nth_Forall (P : R -> Prop) (l : list R) (i : nat) (d : R) :
  Forall P l -> P d -> P (nth i l d).
Proof.
  intros Hl Hd. revert i. induction Hl as [|v l Hv Hl IH]; intros [|i];
    cbn [nth]; auto.
Qed.

(** *** Independence from the generator's initial state *)

Lemma same_but_rng_refl w : same_but_rng w w.
Proof. repeat split. Qed.

Lemma coincide_refl {A} (o : Outcome A) : coincide o o.
Proof. destruct o; cbn; [split; reflexivity | apply same_but_rng_refl]. Qed.

Lemma oblivious_ret {A} (a : A) : oblivious (mret a).
Proof. intros w1 w2 H. cbn. split; [reflexivity | exact H]. Qed.

Lemma oblivious_bind {A B} (m : Py A) (f : A -> Py B) :
  oblivious m -> (forall a, oblivious (f a)) -> oblivious (m ≫= f).
Proof.
  intros Hm Hf w1 w2 H. rewrite !bind_eq. specialize (Hm w1 w2 H).
  destruct (m w1) as [a w1'|w1'], (m w2) as [b w2'|w2']; cbn in Hm;
    try contradiction.
  - destruct Hm as (-> & Hw). apply Hf, Hw.
  - exact Hm.
Qed.

Lemma oblivious_call {A} (f : World -> A * World) :
  (forall w1 w2, same_but_rng w1 w2 ->
     fst (f w1) = fst (f w2) /\ same_but_rng (snd (f w1)) (snd (f w2))) ->
  oblivious (call f).
Proof.
  intros Hf w1 w2 H. unfold call.
  destruct H as (H1 & H2 & H3 & H4). rewrite H4.
  destruct (raises (calls w2)).
  - repeat split; assumption.
  - destruct (Hf w1 w2) as (Ha & G1 & G2 & G3 & G4);
      [repeat split; assumption|].
    cbn. split; [exact Ha|]. repeat split; cbn; congruence.
Qed.

Lemma oblivious_for {A} (l : list A) (body : A -> Py unit) :
  (forall a, oblivious (body a)) -> oblivious (for_ l body).
Proof.
  intros Hb. induction l as [|a l IH]; cbn [for_].
  - apply oblivious_ret.
  - apply oblivious_bind; [apply Hb | intros u; exact IH].
Qed.

Lemma reseeds_bind {A B} (m : Py A) (f : A -> Py B) :
  reseeds m -> reseeds (m ≫= f).
Proof.
  intros Hm w1 w2 H. rewrite !bind_eq. specialize (Hm w1 w2 H).
  destruct (m w1) as [a w1'|w1'], (m w2) as [b w2'|w2']; cbn in Hm;
    try contradiction.
  - destruct Hm as (-> & ->). apply coincide_refl.
  - exact Hm.
Qed.

Lemma reseeds_after {A B} (m : Py A) (f : A -> Py B) :
  oblivious m -> (forall a, reseeds (f a)) -> reseeds (m ≫= f).
Proof.
  intros Hm Hf w1 w2 H. rewrite !bind_eq. specialize (Hm w1 w2 H).
  destruct (m w1) as [a w1'|w1'], (m w2) as [b w2'|w2']; cbn in Hm;
    try contradiction.
  - destruct Hm as (-> & Hw). apply Hf, Hw.
  - exact Hm.
Qed.

Lemma reseeds_seed z : reseeds (np_random_seed z).
Proof.
  intros [s1 f1 d1 o1 c1] [s2 f2 d2 o2 c2] (H1 & H2 & H3 & H4).
  cbn in H1, H2, H3, H4. subst f2 d2 o2 c2.
  unfold np_random_seed, call. cbn [calls].
  destruct (raises c1); cbn.
  - repeat split.
  - split; reflexivity.
Qed.

Ltac obliv :=
  cbn beta;
  lazymatch goal with
  | |- oblivious (mret _) => apply oblivious_ret
  | |- oblivious (mbind _ _) =>
      apply oblivious_bind; [obliv | intros ?; obliv]
  | |- oblivious (for_ _ _) => apply oblivious_for; intros ?; obliv
  | |- oblivious (call _) =>
      apply oblivious_call;
      intros [? ? ? ? ?] [? ? ? ? ?] (? & ? & ? & ?);
      cbn [fig files stdout calls] in *; subst;
      split; [reflexivity | repeat split]
  | |- oblivious (match ?v with _ => _ end) => destruct v; obliv
  | |- oblivious ?m => let h := head_of m in unfold h; obliv
  end.

Lemma reseeds_main : reseeds main.
Proof.
  unfold main.
  apply reseeds_after; [obliv | intros u1].
  apply reseeds_after; [obliv | intros u2].
  apply reseeds_after; [obliv | intros u3].
  apply reseeds_after; [obliv | intros u4].
  apply reseeds_bind. unfold draw_mesh.
  apply reseeds_bind. apply reseeds_seed.
Qed.

(** *** Invariants of the drawn content *)

Lemma keeps_ret {A} (J : World -> Prop) (a : A) : keeps J (mret a) any_value.
Proof. apply triple_ret. intros w Hw. split; [exact Logic.I | exact Hw]. Qed.

Lemma keeps_bind {A B} (J : World -> Prop) (m : Py A) (f : A -> Py B)
      (Q : A -> Prop) (Q' : B -> Prop) :
  keeps J m Q -> (forall a, Q a -> keeps J (f a) Q') -> keeps J (m ≫= f) Q'.
Proof.
  intros Hm Hf. eapply triple_bind; [exact Hm|].
  intros a w (Ha & Hw). apply (Hf a Ha w Hw).
Qed.

Lemma keeps_call {A} (J : World -> Prop) (f : World -> A * World)
      (Q : A -> Prop) :
  (forall w, J w -> Q (fst (f w)) /\ J (tick (snd (f w)))) ->
  keeps J (call f) Q.
Proof.
  intros H. apply triple_call.
  - intros w Hw _. exact Hw.
  - intros w Hw _. apply H, Hw.
Qed.

Lemma keeps_for {A} (J : World -> Prop) (l : list A) (body : A -> Py unit) :
  (forall a, In a l -> keeps J (body a) any_value) ->
  keeps J (for_ l body) any_value.
Proof.
  induction l as [|a l IH]; intros Hb; cbn [for_].
  - apply keeps_ret.
  - eapply keeps_bind; [apply Hb; left; reflexivity|].
    intros u _. apply IH. intros b Hin. apply Hb. right. exact Hin.
Qed.

Lemma keeps_weaken {A} (J : World -> Prop) (m : Py A) (Q : A -> Prop) :
  keeps J m Q -> keeps J m any_value.
Proof.
  intros H. eapply triple_conseq; [exact H | | |]; cbn beta.
  - intros w Hw. exact Hw.
  - intros a w (_ & Hw). split; [exact Logic.I | exact Hw].
  - intros w Hw. exact Hw.
Qed.

(** A call that draws one artist of valid opacity. *)
Lemma opacity_draw (a : Artist) :
  alpha_ok a -> keeps opacities_valid (call (draw a)) any_value.
Proof.
  intros Ha. apply keeps_call. intros w Hw. split; [exact Logic.I|].
  unfold opacities_valid in *. cbn [draw snd tick fig set_fig add_artist artists].
  apply Forall_app. split; [exact Hw|].
  constructor; [exact Ha | constructor].
Qed.

(** A call that leaves the artists as they are. *)
Lemma opacity_frame {A} (f : World -> A * World) :
  (forall w, artists (fig (snd (f w))) = artists (fig w)) ->
  keeps opacities_valid (call f) any_value.
Proof.
  intros Hf. apply keeps_call. intros w Hw. split; [exact Logic.I|].
  unfold opacities_valid in *. cbn [tick fig]. rewrite Hf. exact Hw.
Qed.

Lemma opacity_uniform low high n :
  unit_interval_rng -> low <= high ->
  keeps opacities_valid (np_random_uniform low high n)
        (fun xs => Forall (fun v => low <= v <= high) xs).
Proof.
  intros Hs Hlh. apply keeps_call. intros w Hw. cbn [fst snd]. split.
  - apply uniform_range; assumption.
  - exact Hw.
Qed.

Ltac tuple_cases H :=
  repeat (destruct H as [H|H]; [subst|]);
  try contradiction.

Ltac keep_opacity :=
  cbn beta;
  lazymatch goal with
  | |- keeps _ (mret _) _ => apply keeps_ret
  | |- keeps _ (mbind _ _) _ =>
      eapply keeps_bind; [keep_opacity | intros ? _; keep_opacity]
  | |- keeps _ (call (draw _)) _ =>
      apply opacity_draw; unfold alpha_ok; cbn [alpha_of circ_alpha]; lra
  | |- keeps _ (call _) _ => apply opacity_frame; intros ?; reflexivity
  | |- keeps _ (plt_savefig png_name _) _ =>
      unfold plt_savefig; rewrite format_of_png; keep_opacity
  | |- keeps _ (plt_savefig jpg_name _) _ =>
      unfold plt_savefig; rewrite format_of_jpg; keep_opacity
  | |- keeps _ ?m _ => let h := head_of m in unfold h; keep_opacity
  end.

Lemma opacity_plt_figure size dpi :
  keeps opacities_valid (plt_figure size dpi) any_value.
Proof.
  apply keeps_call. intros w Hw. split; [exact Logic.I|]. constructor.
Qed.

Lemma opacity_imshow :
  keeps opacities_valid draw_background any_value.
Proof.
  apply keeps_call. intros w Hw. split; [exact Logic.I|].
  unfold opacities_valid in *.
  cbn [on_fig snd tick fig set_fig set_aspect add_artist artists].
  apply Forall_app. split; [exact Hw|].
  constructor; [|constructor].
  unfold alpha_ok. cbn [alpha_of]. lra.
Qed.

Lemma opacity_draw_waves : keeps opacities_valid draw_waves any_value.
Proof.
  apply keeps_for. intros cfg Hin. unfold wave_configs in Hin.
  tuple_cases Hin; keep_opacity.
Qed.

Lemma opacity_draw_mesh :
  keeps opacities_valid draw_mesh any_value.
Proof.
  unfold draw_mesh. eapply keeps_bind; [keep_opacity|]. intros u _.
  apply keeps_for. intros [bounds n_pts] _. keep_opacity.
Qed.

Lemma opacity_draw_equations :
  keeps opacities_valid draw_equations any_value.
Proof.
  apply keeps_for. intros [[eq [x_pos y_pos]] fsize] _. keep_opacity.
Qed.

Lemma opacity_Circle c rad fl ec lw al :
  keeps opacities_valid (Circle_ c rad fl ec lw al)
        (fun ci => circ_alpha ci = al).
Proof.
  apply keeps_call. intros w Hw. split; [reflexivity | exact Hw].
Qed.

Lemma opacity_add_patch ci :
  0 <= circ_alpha ci <= 1 ->
  keeps opacities_valid (ax_add_patch ci) any_value.
Proof. intros H. apply opacity_draw. exact H. Qed.

Lemma opacity_draw_circles : keeps opacities_valid draw_circles any_value.
Proof.
  apply keeps_for. intros c Hin. unfold circles in Hin.
  tuple_cases Hin.
  all: eapply keeps_bind; [apply opacity_Circle | intros c1 H1; cbn beta in H1].
  all: eapply keeps_bind; [apply opacity_add_patch; rewrite H1; lra | intros u _].
  all: eapply keeps_bind; [apply opacity_Circle | intros c2 H2; cbn beta in H2].
  all: apply opacity_add_patch; rewrite H2; lra.
Qed.

Lemma opacity_draw_grid : keeps opacities_valid draw_grid any_value.
Proof. apply keeps_for. intros i _. keep_opacity. Qed.

Lemma opacity_draw_corners : keeps opacities_valid draw_corners any_value.
Proof.
  apply keeps_for. intros [[[cx cy] dx0] dy0] _. keep_opacity.
Qed.

Lemma opacity_draw_particles :
  unit_interval_rng -> keeps opacities_valid draw_particles any_value.
Proof.
  intros Hs. unfold draw_particles.
  eapply keeps_bind; [keep_opacity | intros u _].
  eapply keeps_bind; [apply opacity_uniform; [exact Hs | lra] | intros px _].
  eapply keeps_bind; [apply opacity_uniform; [exact Hs | lra] | intros py _].
  eapply keeps_bind; [apply opacity_uniform; [exact Hs | lra] | intros sizes _].
  eapply keeps_bind; [apply opacity_uniform; [exact Hs | lra] | intros alphas Ha].
  apply keeps_for. intros i _. apply opacity_draw.
  unfold alpha_ok. cbn [alpha_of].
  assert (H : 0.05 <= nth i alphas 0.1 <= 0.15)
    by (apply (nth_Forall (fun v => 0.05 <= v <= 0.15)); [exact Ha | lra]).
  destruct (Nat.lt_ge_cases i (length alphas)) as [Hi|Hi].
  - rewrite (nth_indep alphas 0 0.1 Hi). lra.
  - rewrite nth_overflow by exact Hi. lra.
Qed.

(** The opacity invariant holds along the whole script. *)
Lemma opacity_main :
  unit_interval_rng -> keeps opacities_valid main any_value.
Proof.
  intros Hs. unfold main.
  eapply keeps_bind; [apply opacity_plt_figure | intros u1 _].
  eapply keeps_bind; [keep_opacity | intros u2 _].
  eapply keeps_bind; [apply opacity_imshow | intros u3 _].
  eapply keeps_bind; [apply opacity_draw_waves | intros u4 _].
  eapply keeps_bind; [apply opacity_draw_mesh | intros u5 _].
  eapply keeps_bind; [keep_opacity | intros u6 _].
  eapply keeps_bind; [apply opacity_draw_equations | intros u7 _].
  eapply keeps_bind; [apply opacity_draw_circles | intros u8 _].
  eapply keeps_bind; [apply opacity_draw_grid | intros u9 _].
  eapply keeps_bind; [apply opacity_draw_corners | intros u10 _].
  eapply keeps_bind; [apply opacity_draw_particles, Hs | intros u11 _].
  eapply keeps_bind; [keep_opacity | intros u12 _].
  eapply keeps_bind; [keep_opacity | intros u13 _].
  keep_opacity.
Qed.

(** ** The properties of the specification *)

(** C1. Two runs of the script draw the same content, whatever state the
    generator happened to start in: the script seeds the generator (42
    before the mesh block, 123 before the particle block) before its
    first draw.  For two runs in the same environment (same faults, same
    directory) the exit status, the artists drawn (mesh points, particle
    positions, sizes and opacities included), the files and the output
    are equal, and runs that complete end in the very same state. *)
Theorem determinism (entropy1 entropy2 : rng) (disk : gmap string ImageFile) :
  coincide (run entropy1 disk) (run entropy2 disk) /\
  exit_code (run entropy1 disk) = exit_code (run entropy2 disk) /\
  artists (fig (world_of (run entropy1 disk)))
    = artists (fig (world_of (run entropy2 disk))) /\
  files (world_of (run entropy1 disk)) = files (world_of (run entropy2 disk)) /\
  stdout (world_of (run entropy1 disk)) = stdout (world_of (run entropy2 disk)).
Proof.
  assert (H : coincide (run entropy1 disk) (run entropy2 disk)).
  { apply reseeds_main. repeat split. }
  split; [exact H|].
  destruct (run entropy1 disk) as [a1 w1|w1], (run entropy2 disk) as [a2 w2|w2];
    cbn in H; try contradiction.
  - destruct H as (_ & ->). repeat split.
  - destruct H as (H1 & H2 & H3 & H4). cbn. rewrite H1. repeat split; assumption.
Qed.

Lemma kinds_flat_map {A} (g : A -> list Artist) (ks : list Kind) (l : list A) :
  (forall a, map kind_of (g a) = ks) ->
  map kind_of (flat_map g l) = flat_map (fun _ => ks) l.
Proof.
  intros H. induction l as [|a l IH]; [reflexivity|].
  cbn [flat_map]. rewrite map_app, H, IH. reflexivity.
Qed.

(** C2. A complete run draws, in this order and nothing else: one
    gradient image, five wave strokes, three triangulated meshes, one
    quiver field on a 12 x 12 grid, four text labels, three pairs of
    circles, the grid lines (fifteen vertical/horizontal pairs), two
    corner marks (two strokes each) and eighty particle dots. *)
Theorem draw_operations_in_order (entropy : rng) (disk : gmap string ImageFile) :
  first_fault n_calls = None ->
  exists w,
    run entropy disk = Returned tt w /\
    artists (fig w)
      = gradient_image
          ++ flat_map wave_stroke wave_configs
          ++ mesh_lines
          ++ flow_arrows
          ++ flat_map label equations
          ++ flat_map ring_pair circles
          ++ flat_map grid_cross (np.linspace 0.5 9.5 15)
          ++ flat_map corner_mark corner_elements
          ++ particle_dots /\
    map kind_of (artists (fig w))
      = [KImage] ++ repeat KLine 5 ++ repeat KTriplot 3 ++ [KQuiver]
          ++ repeat KText 4 ++ repeat KCircle (3 * 2)
          ++ repeat KLine (15 * 2) ++ repeat KLine (2 * 2)
          ++ repeat KMarker 80 /\
    map (@length R) X_grid = repeat 12%nat 12 /\
    map (@length R) Y_grid = repeat 12%nat 12 /\
    map (@length R) U = repeat 12%nat 12 /\
    map (@length R) V = repeat 12%nat 12.
Proof.
  intros Hok.
  destruct (run_success entropy disk Hok) as (w & Hrun & _ & _ & Hfig & _).
  exists w. split; [exact Hrun|]. rewrite Hfig.
  cbn [close artists saved_figure]. split; [reflexivity|].
  split; [|repeat split; reflexivity].
  unfold all_artists. rewrite !map_app.
  rewrite (kinds_flat_map wave_stroke [KLine])
    by (intros [[[[? ?] ?] ?] ?]; reflexivity).
  rewrite (kinds_flat_map label [KText])
    by (intros [[? [? ?]] ?]; reflexivity).
  rewrite (kinds_flat_map ring_pair [KCircle; KCircle])
    by (intros [[[[? ?] ?] ?] ?]; reflexivity).
  rewrite (kinds_flat_map grid_cross [KLine; KLine]) by reflexivity.
  rewrite (kinds_flat_map corner_mark [KLine; KLine])
    by (intros [[[? ?] ?] ?]; reflexivity).
  unfold particle_dots.
  rewrite (kinds_flat_map dot [KMarker]) by reflexivity.
  reflexivity.
Qed.

Lemma saved_files entropy disk :
  first_fault n_calls = None ->
  exists w, run entropy disk = Returned tt w /\
            files w !! png_name = Some png_image /\
            files w !! jpg_name = Some jpg_image /\
            (forall name, name <> png_name -> name <> jpg_name ->
                          files w !! name = disk !! name).
Proof.
  intros Hok.
  destruct (run_success entropy disk Hok) as (w & Hrun & _ & _ & _ & Hfiles & _).
  exists w. split; [exact Hrun|]. rewrite Hfiles. repeat split.
  - rewrite lookup_insert_ne by (symmetry; apply png_jpg_names).
    apply lookup_insert_eq.
  - apply lookup_insert_eq.
  - intros name H1 H2.
    rewrite lookup_insert_ne by congruence.
    rewrite lookup_insert_ne by congruence. reflexivity.
Qed.

(** C3, as the code has it. Both files have the same pixel dimensions:
    those of the region that [bbox_inches='tight'] with [pad_inches=0]
    selects, the renderer's tight bounding box of the drawn content, at
    200 dots per inch.  The figure size times the resolution, 3840 x
    2160, is the size of the uncropped canvas; the files have it exactly
    when the tight bounding box is the whole 19.2 x 10.8 inch figure.  When
    the content is the box of the equal-aspect axes, the largest square of
    the figure, the files are 2160 x 2160. *)
Theorem output_dimensions (entropy : rng) (disk : gmap string ImageFile) :
  first_fault n_calls = None ->
  exists w png jpg,
    run entropy disk = Returned tt w /\
    files w !! png_name = Some png /\
    files w !! jpg_name = Some jpg /\
    img_size png = img_size jpg /\
    img_size png = (fst (get_tightbbox saved_figure) * 200,
                    snd (get_tightbbox saved_figure) * 200) /\
    (fst (figsize saved_figure) * fig_dpi saved_figure,
     snd (figsize saved_figure) * fig_dpi saved_figure) = (3840, 2160) /\
    (img_size png = (3840, 2160) <->
     get_tightbbox saved_figure = (19.2, 10.8)) /\
    (get_tightbbox saved_figure = equal_aspect_box saved_figure ->
     img_size png = (2160, 2160)).
Proof.
  intros Hok.
  destruct (saved_files entropy disk Hok) as (w & Hrun & Hpng & Hjpg & _).
  exists w, png_image, jpg_image.
  split; [exact Hrun|]. split; [exact Hpng|]. split; [exact Hjpg|].
  unfold png_image, jpg_image, savefig_image, saved_region.
  cbn [img_size bbox_inches png_opts jpg_opts pad_inches dpi String.eqb
       Ascii.eqb Bool.eqb fst snd figsize fig_dpi saved_figure].
  destruct (get_tightbbox saved_figure) as [bw bh]. cbn [fst snd].
  split; [reflexivity|]. split; [f_equal; lra|]. split; [f_equal; lra|].
  split; [split; intros H; injection H as H1 H2; f_equal; lra|].
  unfold equal_aspect_box.
  cbn [aspect saved_figure figsize fst snd String.eqb Ascii.eqb Bool.eqb].
  rewrite Rmin_right by lra. intros H. injection H as H1 H2. f_equal; lra.
Qed.

(** Each of the two savefig calls, with its options. *)
Lemma png_image_eq :
  png_image = {| img_format := PNG;
                 img_size := img_size png_image;
                 img_alpha_channel := true;
                 img_fill := Some (0, 0, 0, 0)%N;
                 img_transparent_axes := true;
                 img_content := all_artists |}.
Proof. reflexivity. Qed.

Lemma jpg_image_eq :
  jpg_image = {| img_format := JPEG;
                 img_size := img_size jpg_image;
                 img_alpha_channel := false;
                 img_fill := Some (25, 55, 180, 255)%N;
                 img_transparent_axes := false;
                 img_content := all_artists |}.
Proof. reflexivity. Qed.

(** C7. The PNG is saved with transparency ([transparent=True],
    [facecolor='none']): it has an opacity channel and nothing opaque
    behind the artists.  The JPEG is saved over the opaque fill
    [#1937b4], that is (25, 55, 180), and has no opacity channel. *)
Theorem png_transparent_jpg_opaque (entropy : rng)
        (disk : gmap string ImageFile) :
  first_fault n_calls = None ->
  exists w png jpg,
    run entropy disk = Returned tt w /\
    files w !! png_name = Some png /\
    files w !! jpg_name = Some jpg /\
    transparent png_opts = true /\ facecolor png_opts = "none"%string /\
    img_format png = PNG /\ img_alpha_channel png = true /\
    img_fill png = Some (0, 0, 0, 0)%N /\ img_transparent_axes png = true /\
    transparent jpg_opts = false /\ facecolor jpg_opts = "#1937b4"%string /\
    img_format jpg = JPEG /\ img_alpha_channel jpg = false /\
    img_fill jpg = Some (25, 55, 180, 255)%N /\
    img_transparent_axes jpg = false.
Proof.
  intros Hok.
  destruct (saved_files entropy disk Hok) as (w & Hrun & Hpng & Hjpg & _).
  exists w, png_image, jpg_image.
  split; [exact Hrun|]. split; [exact Hpng|]. split; [exact Hjpg|].
  rewrite png_image_eq, jpg_image_eq. repeat split.
Qed.

(** C6. There is no handler anywhere.  When none of the 168 library
    calls raises, the run returns, the directory holds the two images
    under their two names (replacing whatever was there, all other files
    untouched) and the three status lines have been written to
    [sys.stdout]; the exit status is then 0 when the interpreter's final
    flush succeeds, and the three lines are delivered, and 120 when that
    flush fails.  When some call raises, the exception reaches the top
    level: the run stopped at the first failing call, having completed
    exactly the calls before it - none after it, none twice - and the
    exit status is not 0: it is 1, or 120 when the final flush fails as
    well.  Altogether the exit status is 0 exactly when nothing failed,
    neither a call nor the final flush. *)
Theorem no_error_handling (entropy : rng) (disk : gmap string ImageFile) :
  match first_fault n_calls with
  | None =>
      exists w,
        run entropy disk = Returned tt w /\
        exit_code (run entropy disk) = (if flush_fails then 120 else 0)%Z /\
        calls w = n_calls /\
        files w = <[jpg_name := jpg_image]> (<[png_name := png_image]> disk) /\
        files w !! png_name = Some png_image /\
        files w !! jpg_name = Some jpg_image /\
        (forall name, name <> png_name -> name <> jpg_name ->
                      files w !! name = disk !! name) /\
        stdout w = status_lines /\
        delivered (run entropy disk)
        = (if flush_fails then None else Some status_lines)
  | Some k =>
      exists w,
        run entropy disk = Raised w /\
        exit_code (run entropy disk) = (if flush_fails then 120 else 1)%Z /\
        exit_code (run entropy disk) <> 0%Z /\
        raises k = true /\
        (forall j, (j < k)%nat -> raises j = false) /\
        (k < n_calls)%nat /\
        calls w = k /\
        delivered (run entropy disk)
        = (if flush_fails then None else Some (stdout w))
  end /\
  (exit_code (run entropy disk) = 0%Z
   <-> first_fault n_calls = None /\ flush_fails = false).
Proof.
  pose proof (run_cases entropy disk) as Hr.
  pose proof (saved_files entropy disk) as Hf.
  unfold first_fault in *.
  destruct (List.find raises (seq 0 n_calls)) as [k|] eqn:Hfind.
  - destruct Hr as (w & Hrun & Hk & Hlt). rewrite Hrun.
    unfold exit_code, delivered. cbn [world_of]. split.
    + exists w. split; [reflexivity|]. split; [reflexivity|].
      split; [destruct flush_fails; discriminate|].
      split; [apply find_some in Hfind; apply Hfind|].
      split; [|split; [exact Hlt|split; [exact Hk|reflexivity]]].
      intros j Hj.
      destruct (raises j) eqn:Hrj; [|reflexivity]. exfalso.
      pose proof (counts_main 0%nat (initial_world entropy disk) eq_refl) as Hc.
      unfold run in Hrun. rewrite Hrun in Hc.
      destruct Hc as (_ & _ & Hcl). rewrite (Hcl j) in Hrj by lia.
      discriminate.
    + split.
      * destruct flush_fails; discriminate.
      * intros [Hnone _]. discriminate.
  - destruct Hr as (w & Hrun & Hn & _ & _ & Hfiles & Hout).
    destruct (Hf eq_refl) as (w' & Hrun' & Hpng & Hjpg & Hother).
    rewrite Hrun in Hrun'. injection Hrun' as <-.
    rewrite Hrun. unfold exit_code, delivered. cbn [world_of]. split.
    + exists w. rewrite Hout.
      split; [reflexivity|]. split; [reflexivity|]. split; [exact Hn|].
      split; [exact Hfiles|]. split; [exact Hpng|]. split; [exact Hjpg|].
      split; [exact Hother|]. split; reflexivity.
    + split.
      * destruct flush_fails; [discriminate|]. intros _. split; reflexivity.
      * intros [_ ->]. reflexivity.
Qed.

Lemma in_canvas_within lo hi (l : list R) :
  0 <= lo -> hi <= 10 ->
  Forall (fun v => lo <= v <= hi) l -> Forall in_canvas l.
Proof.
  intros Hlo Hhi H. eapply Forall_impl; [exact H|].
  cbn beta. unfold in_canvas. intros v Hv. lra.
Qed.

Lemma mesh_lines_regions :
  unit_interval_rng -> Forall2 mesh_of_region mesh_regions mesh_lines.
Proof.
  intros Hs. unfold mesh_lines, mesh_regions.
  cbn [loop_fold mesh_step fst snd app].
  repeat (constructor; [eexists; eexists; split; [reflexivity|] |]);
    [ | | | constructor ].
  all: cbn [nth fst snd].
  all: repeat split;
    try apply uniform_length; try (apply uniform_range; [exact Hs | lra]);
    lra.
Qed.

Lemma particles_in_canvas :
  unit_interval_rng -> Forall points_in_canvas particle_dots.
Proof.
  intros Hs. unfold particle_dots. apply Forall_flat_map.
  apply Forall_forall. intros i _. unfold dot.
  constructor; [|constructor]. cbn [points_in_canvas]. split.
  - apply (nth_Forall in_canvas); [|unfold in_canvas; lra].
    apply (in_canvas_within 0 10); [lra | lra |].
    apply uniform_range; [exact Hs | lra].
  - apply (nth_Forall in_canvas); [|unfold in_canvas; lra].
    apply (in_canvas_within 0 10); [lra | lra |].
    apply uniform_range; [exact Hs | lra].
Qed.

(** C4. Every random coordinate lies on the canvas.  In a complete run
    the three meshes are drawn from 15, 12 and 18 points, each point
    inside the rectangle of its region, and the three rectangles lie in
    [[0, 10] x [0, 10]]; the eighty particle positions are eighty draws
    of [uniform(0, 10)] for each coordinate and lie in it too. *)
Theorem random_points_in_canvas (entropy : rng)
        (disk : gmap string ImageFile) :
  unit_interval_rng ->
  first_fault n_calls = None ->
  exists w,
    run entropy disk = Returned tt w /\
    artists (fig w) = all_artists /\
    Forall2 mesh_of_region mesh_regions mesh_lines /\
    length (fst px_draw) = 80%nat /\ length (fst py_draw) = 80%nat /\
    Forall in_canvas (fst px_draw) /\ Forall in_canvas (fst py_draw) /\
    Forall points_in_canvas (mesh_lines ++ particle_dots).
Proof.
  intros Hs Hok.
  destruct (run_success entropy disk Hok) as (w & Hrun & _ & _ & Hfig & _).
  exists w. split; [exact Hrun|]. split; [rewrite Hfig; reflexivity|].
  pose proof (mesh_lines_regions Hs) as Hmesh.
  split; [exact Hmesh|].
  split; [apply uniform_length|]. split; [apply uniform_length|].
  split; [apply (in_canvas_within 0 10); [lra | lra |];
          apply uniform_range; [exact Hs | lra]|].
  split; [apply (in_canvas_within 0 10); [lra | lra |];
          apply uniform_range; [exact Hs | lra]|].
  apply Forall_app. split; [|apply particles_in_canvas, Hs].
  clear -Hmesh. induction Hmesh as [|region a rs ms Ha _ IH]; [constructor|].
  constructor; [|exact IH].
  destruct Ha as (mx & my & -> & _ & _ & Hx & Hy & H0 & H1 & H2 & H3).
  cbn [points_in_canvas tri_x tri_y]. split.
  - apply (in_canvas_within _ _ mx H0 H1 Hx).
  - apply (in_canvas_within _ _ my H2 H3 Hy).
Qed.

(** C5. Every opacity handed to a drawing call lies in [[0, 1]]: the
    artists on the axes satisfy it wherever the run ends, by completion
    or by an exception; and a complete run has drawn all of them. *)
Theorem opacities_in_unit_interval (entropy : rng)
        (disk : gmap string ImageFile) :
  unit_interval_rng ->
  Forall (fun a => 0 <= alpha_of a <= 1)
         (artists (fig (world_of (run entropy disk)))) /\
  match first_fault n_calls with
  | None => artists (fig (world_of (run entropy disk))) = all_artists
  | Some _ => True
  end.
Proof.
  intros Hs. split.
  - assert (H0 : opacities_valid (initial_world entropy disk)) by constructor.
    pose proof (opacity_main Hs _ H0) as H. unfold run.
    destruct (main (initial_world entropy disk)) as [a w|w]; cbn [world_of].
    + apply H.
    + exact H.
  - destruct (first_fault n_calls) eqn:Hff; [exact Logic.I|].
    destruct (run_success entropy disk Hff) as (w & Hrun & _ & _ & Hfig & _).
    rewrite Hrun. cbn [world_of]. rewrite Hfig. reflexivity.
Qed.

Lemma grid_axis_eq :
  grid_axis = map (fun j : nat => 0.8 + INR j * (8.4 / 11)) (seq 0 12).
Proof.
  unfold grid_axis, np.linspace. apply map_ext. intros j.
  cbn [Nat.sub INR]. lra.
Qed.

(** C8. The field is evaluated on the 12 x 12 grid whose coordinates
    are 0.8 + j (8.4 / 11), j = 0..11, from 0.8 to 9.2; [X_grid] varies
    along the columns and [Y_grid] along the rows.  At the point (x, y),
    with (dx, dy) = (x - 5, y - 5) and r = sqrt(dx^2 + dy^2) + 0.1,
    U = -dy/r exp(-r/4) - 0.15 dx and V = dx/r exp(-r/4) - 0.15 dy: the
    sum of a rotational term, (exp(-r/4)/r) (-dy, dx), perpendicular to
    the displacement, and of the inward term -0.15 (dx, dy).  The factor
    exp(-r/4)/r is positive; the length of the rotational term is that
    factor times the length of the displacement. *)
Theorem flow_field_vortex_plus_sink :
  grid_axis = map (fun j : nat => 0.8 + INR j * (8.4 / 11)) (seq 0 12) /\
  length grid_axis = 12%nat /\
  nth 0 grid_axis 0 = 0.8 /\ nth 11 grid_axis 0 = 9.2 /\
  X_grid = tabulate (fun _ xv => xv) grid_axis grid_axis /\
  Y_grid = tabulate (fun yv _ => yv) grid_axis grid_axis /\
  U = tabulate (fun yv xv => spec_U xv yv) grid_axis grid_axis /\
  V = tabulate (fun yv xv => spec_V xv yv) grid_axis grid_axis /\
  flow_arrows = [Quiver X_grid Y_grid U V "white" 0.15 0.004 12 3.5 4.5] /\
  (forall xv yv,
      spec_U xv yv = fst (spec_vortex xv yv) + fst (spec_sink xv yv) /\
      spec_V xv yv = snd (spec_vortex xv yv) + snd (spec_sink xv yv) /\
      fst (spec_vortex xv yv) * (xv - 5)
        + snd (spec_vortex xv yv) * (yv - 5) = 0 /\
      0 < exp (- spec_r xv yv / 4) / spec_r xv yv /\
      fst (spec_vortex xv yv) ^ 2 + snd (spec_vortex xv yv) ^ 2
      = (exp (- spec_r xv yv / 4) / spec_r xv yv) ^ 2
        * ((xv - 5) ^ 2 + (yv - 5) ^ 2)).
Proof.
  split; [apply grid_axis_eq|].
  split; [apply linspace_length|].
  split; [rewrite grid_axis_eq; cbn [seq map nth INR]; lra|].
  split; [rewrite grid_axis_eq; cbn [seq map nth INR]; lra|].
  split; [apply X_grid_table|]. split; [apply Y_grid_table|].
  split; [apply U_table|]. split; [apply V_table|].
  split; [reflexivity|].
  intros xv yv. pose proof (spec_r_pos xv yv) as Hr.
  unfold spec_U, spec_V, spec_vortex, spec_sink. cbn [fst snd].
  repeat split.
  - unfold Rdiv. lra.
  - unfold Rdiv. lra.
  - unfold Rdiv. ring.
  - apply Rdiv_lt_0_compat; [apply exp_pos | lra].
  - unfold Rdiv. ring.
Qed.

(** C9. For each of the five wave configurations and every abscissa in
    [[0, 10]] the ordinate [offset + 1.2 sin(freq t + phase) + 0.3
    sin(2 freq t)] lies within 1.5 of the offset; the offsets lie in
    [[4, 6]], so every curve, and every plotted sample, stays in the
    band [[2.5, 7.5]], strictly inside the canvas. *)
Theorem waves_within_band (cfg : R * R * R * R * R) (tau : R) :
  In cfg wave_configs ->
  0 <= tau <= 10 ->
  let '(freq, phase, alpha_val, lw, offset) := cfg in
  offset - 1.5 <= wave_ordinate freq phase offset tau <= offset + 1.5 /\
  4.0 <= offset <= 6.0 /\
  2.5 <= wave_ordinate freq phase offset tau <= 7.5 /\
  0 < wave_ordinate freq phase offset tau < 10 /\
  Forall (fun yv => 2.5 <= yv <= 7.5) (y_wave freq phase offset) /\
  length (y_wave freq phase offset) = 2000%nat.
Proof.
  intros Hin Ht.
  assert (Hb : forall freq phase offset ti,
             offset - 1.5 <= wave_ordinate freq phase offset ti <= offset + 1.5).
  { intros freq phase offset ti. unfold wave_ordinate.
    pose proof (SIN_bound (freq * ti + phase)).
    pose proof (SIN_bound (freq * 2 * ti)). lra. }
  unfold wave_configs in Hin. tuple_cases Hin.
  all: cbn beta iota zeta.
  all: match goal with
       | |- _ <= wave_ordinate ?f ?p ?o ?x <= _ /\ _ =>
           pose proof (Hb f p o x) as Htau
       end.
  all: repeat split; try lra.
  all: try (unfold y_wave; apply Forall_map, Forall_forall; intros ti _;
            match goal with
            | |- _ <= wave_ordinate ?f ?p ?o ?x <= _ =>
                pose proof (Hb f p o x); lra
            end).
  all: unfold y_wave, t; rewrite length_map; apply linspace_length.
Qed.

(** C10. For each of the three tuples the script draws exactly two
    unfilled circles with the tuple's centre; the inner one has 0.6
    times the radius, 0.6 times the line width and 0.5 times the opacity
    of the outer one, and both lie inside [[0, 10] x [0, 10]].  A
    complete run has these six circles, pair after pair, among its
    artists. *)
Theorem concentric_circle_pairs (entropy : rng)
        (disk : gmap string ImageFile) :
  first_fault n_calls = None ->
  length circles = 3%nat /\
  Forall pair_drawn circles /\
  exists w before after,
    run entropy disk = Returned tt w /\
    artists (fig w) = before ++ flat_map ring_pair circles ++ after /\
    Forall (fun a => kind_of a <> KCircle) (before ++ after).
Proof.
  intros Hok. split; [reflexivity|]. split.
  - unfold circles.
    repeat (constructor;
            [ eexists; eexists; split; [reflexivity|];
              unfold concentric, circle_in_canvas;
              cbn [center radius circ_linewidth circ_alpha fill fst snd];
              repeat split; lra | ]).
    constructor.
  - destruct (run_success entropy disk Hok) as (w & Hrun & _ & _ & Hfig & _).
    exists w.
    exists (gradient_image ++ flat_map wave_stroke wave_configs
              ++ mesh_lines ++ flow_arrows ++ flat_map label equations).
    exists (flat_map grid_cross (np.linspace 0.5 9.5 15)
              ++ flat_map corner_mark corner_elements ++ particle_dots).
    split; [exact Hrun|]. split.
    + rewrite Hfig. cbn [close artists saved_figure]. unfold all_artists.
      rewrite <- !app_assoc. reflexivity.
    + rewrite !Forall_app. repeat split.
      * repeat constructor; discriminate.
      * apply Forall_flat_map, Forall_forall.
        intros [[[[? ?] ?] ?] ?] _. repeat constructor; discriminate.
      * unfold mesh_lines, mesh_regions.
        cbn [loop_fold mesh_step fst snd app].
        repeat constructor; discriminate.
      * repeat constructor; discriminate.
      * apply Forall_flat_map, Forall_forall.
        intros [[? [? ?]] ?] _. repeat constructor; discriminate.
      * apply Forall_flat_map, Forall_forall.
        intros ? _. repeat constructor; discriminate.
      * apply Forall_flat_map, Forall_forall.
        intros [[[? ?] ?] ?] _. repeat constructor; discriminate.
      * apply Forall_flat_map, Forall_forall.
        intros ? _. repeat constructor; discriminate.
Qed.

(** ** Further properties *)

(** *** Samples of [np.linspace] *)

Lemma linspace_range a b n :
  a <= b -> Forall (fun v => a <= v <= b) (np.linspace a b n).
Proof.
  intros Hab. unfold np.linspace. apply Forall_map, Forall_forall.
  intros i Hi. apply elem_of_seq in Hi. cbn beta.
  destruct n as [|[|n]]; [lia | |].
  - assert (i = 0%nat) by lia. subst i. cbn [INR]. lra.
  - replace (S (S n) - 1)%nat with (S n) by lia.
    assert (Hd : 0 < INR (S n)) by (apply lt_0_INR; lia).
    assert (Hi0 : 0 <= INR i) by apply pos_INR.
    assert (Hi1 : INR i <= INR (S n)) by (apply le_INR; lia).
    assert (Hq : 0 <= INR i / INR (S n) <= 1).
    { split.
      - apply Rmult_le_pos; [exact Hi0 | left; apply Rinv_0_lt_compat, Hd].
      - apply (Rmult_le_reg_r (INR (S n))); [exact Hd|].
        unfold Rdiv. rewrite Rmult_assoc, Rinv_l by lra. lra. }
    replace (INR i * ((b - a) / INR (S n)))
      with ((b - a) * (INR i / INR (S n))) by (unfold Rdiv; ring).
    split; nra.
Qed.

(** *** The gradient image *)

Lemma zip_with_map_pair {A B C} (f : A -> B) (g : A -> C) (l : list A) :
  zip_with pair (map f l) (map g l) = map (fun c => (f c, g c)) l.
Proof.
  induction l as [|a l IH]; [reflexivity|].
  cbn [map zip_with]. rewrite IH. reflexivity.
Qed.

Lemma zip_with_map_triple (f g h : R -> R) (l : list R) :
  zip_with (fun xv '(yv, zv) => (xv, yv, zv)) (map f l)
           (map (fun c => (g c, h c)) l)
  = map (fun c => (f c, g c, h c)) l.
Proof.
  induction l as [|a l IH]; [reflexivity|].
  cbn [map zip_with]. rewrite IH. reflexivity.
Qed.

Lemma dstack3_tabulate f g h rows cols :
  np.dstack3 (tabulate f rows cols) (tabulate g rows cols) (tabulate h rows cols)
  = map (fun ri => map (fun cj => (f ri cj, g ri cj, h ri cj)) cols) rows.
Proof.
  unfold np.dstack3, tabulate.
  induction rows as [|ri rows IH]; [reflexivity|].
  cbn [map zip_with]. rewrite IH. f_equal.
  rewrite zip_with_map_pair. apply zip_with_map_triple.
Qed.

Lemma meshgrid_X : X = tabulate (fun _ xv => xv) y x.
Proof.
  unfold X, np.meshgrid, tabulate. cbn [fst]. apply map_ext. intros ri.
  symmetry. apply map_id.
Qed.

Lemma meshgrid_Y : Y = tabulate (fun yv _ => yv) y x.
Proof. reflexivity. Qed.

Lemma background_table :
  background = map (fun yv => map (fun xv => gradient_pixel yv xv) x) y.
Proof.
  unfold background, chan_R, chan_G, chan_B, radial_factor, radial.
  rewrite meshgrid_X, meshgrid_Y.
  rewrite !zip2d_tabulate, map2d_tabulate, !zip2d_tabulate.
  rewrite dstack3_tabulate. reflexivity.
Qed.

Lemma exp_nonpos_le_1 (v : R) : v <= 0 -> 0 < exp v <= 1.
Proof.
  intros Hv. split; [apply exp_pos|].
  destruct Hv as [Hv| ->]; [|rewrite exp_0; lra].
  left. rewrite <- exp_0. apply exp_increasing, Hv.
Qed.

Lemma vignette_range xv yv :
  0.85 <= 1 - 0.15 * exp (- sqrt ((xv - center_x) ^ 2 + (yv - center_y) ^ 2) * 3) < 1.
Proof.
  pose proof (sqrt_pos ((xv - center_x) ^ 2 + (yv - center_y) ^ 2)) as Hd.
  pose proof (exp_nonpos_le_1
                (- sqrt ((xv - center_x) ^ 2 + (yv - center_y) ^ 2) * 3)) as He.
  assert (H : - sqrt ((xv - center_x) ^ 2 + (yv - center_y) ^ 2) * 3 <= 0) by lra.
  specialize (He H). lra.
Qed.

Lemma product_in_unit (a b c : R) :
  0 <= a <= 1 -> 0 <= b <= 1 -> 0 <= c <= 1 -> 0 <= a * b * c <= 1.
Proof.
  intros Ha Hb Hc.
  assert (0 <= a * b <= 1) by nra. nra.
Qed.

Lemma gradient_pixel_valid yv xv :
  0 <= yv <= 1 -> 0 <= xv <= 1 -> valid_rgb (gradient_pixel yv xv).
Proof.
  intros Hy Hx. pose proof (vignette_range xv yv) as Hf.
  unfold gradient_pixel, valid_rgb. cbn [color_dark color_light map nth].
  repeat split; apply product_in_unit; lra || nra.
Qed.

Lemma gradient_pixel_blue yv xv :
  0 <= yv <= 1 -> 0 <= xv <= 1 -> blue_dominant (gradient_pixel yv xv).
Proof.
  intros Hy Hx. pose proof (vignette_range xv yv) as Hf.
  unfold gradient_pixel, blue_dominant. cbn [color_dark color_light map nth].
  set (fade := 1 - 0.15 * exp _) in *.
  split; apply Rmult_le_compat_r; try lra; nra.
Qed.

Lemma unit_axis_range : Forall (fun v => 0 <= v <= 1) x /\ Forall (fun v => 0 <= v <= 1) y.
Proof. split; apply linspace_range; lra. Qed.

Lemma Forall_table {A} (P : A -> Prop) (Q : R -> Prop) (f : R -> R -> A)
      (rows cols : list R) :
  Forall Q rows -> Forall Q cols ->
  (forall ri cj, Q ri -> Q cj -> P (f ri cj)) ->
  Forall (Forall P) (map (fun ri => map (fun cj => f ri cj) cols) rows).
Proof.
  intros Hr Hc Hf. apply Forall_map.
  eapply Forall_impl; [exact Hr|]. cbn beta. intros ri Hri.
  apply Forall_map. eapply Forall_impl; [exact Hc|]. cbn beta.
  intros cj Hcj. apply Hf; assumption.
Qed.

(** X1. The image handed to [imshow] is a valid floating-point RGB image:
    200 rows of 200 pixels, every channel of every pixel in [[0, 1]]. *)
Theorem background_is_valid_rgb :
  length background = 200%nat /\
  Forall (fun row => length row = 200%nat) background /\
  Forall (Forall valid_rgb) background.
Proof.
  rewrite background_table. destruct unit_axis_range as (Hx & Hy).
  split; [rewrite length_map; apply linspace_length|]. split.
  - apply Forall_map, Forall_forall. intros yv _. cbn beta.
    rewrite length_map. apply linspace_length.
  - apply (Forall_table valid_rgb (fun v => 0 <= v <= 1)); try assumption.
    intros yv xv. apply gradient_pixel_valid.
Qed.

(** X2. The radial term only darkens, and by 15 per cent at most: every
    entry of [radial_factor] lies in [[0.85, 1)]; and the palette stays
    blue: in every pixel of [background] red <= green <= blue. *)
Theorem background_vignette_and_palette :
  Forall (Forall (fun f => 0.85 <= f < 1)) radial_factor /\
  Forall (Forall blue_dominant) background.
Proof.
  destruct unit_axis_range as (Hx & Hy). split.
  - unfold radial_factor, radial. rewrite meshgrid_X, meshgrid_Y.
    rewrite zip2d_tabulate, map2d_tabulate.
    apply (Forall_table _ (fun _ => True)).
    + apply Forall_forall. intros; exact Logic.I.
    + apply Forall_forall. intros; exact Logic.I.
    + intros yv xv _ _. apply vignette_range.
  - rewrite background_table.
    apply (Forall_table blue_dominant (fun v => 0 <= v <= 1)); try assumption.
    intros yv xv. apply gradient_pixel_blue.
Qed.

(** *** The flow field *)

Lemma grid_axis_range : Forall (fun v => 0.8 <= v <= 9.2) grid_axis.
Proof. apply linspace_range. lra. Qed.

Lemma grid_axis_off_centre : Forall (fun v => 0.38 <= Rabs (v - 5)) grid_axis.
Proof.
  rewrite grid_axis_eq. cbn [seq map INR].
  repeat (constructor;
          [ first [ rewrite Rabs_left by lra; lra
                  | rewrite Rabs_right by lra; lra ] | ]).
  constructor.
Qed.

Lemma abs_le_spec_r (xv yv : R) :
  Rabs (xv - 5) + 0.1 <= spec_r xv yv /\ Rabs (yv - 5) + 0.1 <= spec_r xv yv.
Proof.
  unfold spec_r. split.
  - rewrite <- (sqrt_Rsqr_abs (xv - 5)).
    apply Rplus_le_compat_r, sqrt_le_1_alt.
    pose proof (Rle_0_sqr (yv - 5)) as H. unfold Rsqr in *. lra.
  - rewrite <- (sqrt_Rsqr_abs (yv - 5)).
    apply Rplus_le_compat_r, sqrt_le_1_alt.
    pose proof (Rle_0_sqr (xv - 5)) as H. unfold Rsqr in *. lra.
Qed.

(** The rotational part of either component is smaller than 1 in absolute
    value. *)
Lemma swirl_bound (d rv : R) :
  Rabs d + 0.1 <= rv -> Rabs (d / rv * exp (- rv / 4)) < 1.
Proof.
  intros Hr. pose proof (Rabs_pos d) as Hd.
  assert (Hrv : 0 < rv) by lra.
  pose proof (exp_nonpos_le_1 (- rv / 4)) as He.
  assert (Hneg : - rv / 4 <= 0) by lra. specialize (He Hneg).
  rewrite Rabs_mult, (Rabs_right (exp _)) by lra.
  unfold Rdiv at 1. rewrite Rabs_mult, (Rabs_right (/ rv))
    by (left; apply Rinv_0_lt_compat, Hrv).
  assert (Hq : Rabs d * / rv < 1).
  { apply (Rmult_lt_reg_r rv); [exact Hrv|].
    rewrite Rmult_assoc, Rinv_l by lra. lra. }
  assert (Hq0 : 0 <= Rabs d * / rv).
  { apply Rmult_le_pos; [exact Hd | left; apply Rinv_0_lt_compat, Hrv]. }
  nra.
Qed.

Lemma spec_U_bound xv yv :
  0.8 <= xv <= 9.2 -> Rabs (spec_U xv yv) < 1.63.
Proof.
  intros Hx. unfold spec_U.
  pose proof (swirl_bound (- (yv - 5)) (spec_r xv yv)) as Hs.
  rewrite Rabs_Ropp in Hs. specialize (Hs (proj2 (abs_le_spec_r xv yv))).
  apply Rabs_def1; apply Rabs_def2 in Hs; lra.
Qed.

Lemma spec_V_bound xv yv :
  0.8 <= yv <= 9.2 -> Rabs (spec_V xv yv) < 1.63.
Proof.
  intros Hy. unfold spec_V.
  pose proof (swirl_bound (xv - 5) (spec_r xv yv)
                          (proj1 (abs_le_spec_r xv yv))) as Hs.
  apply Rabs_def1; apply Rabs_def2 in Hs; lra.
Qed.

(** X3. The divisions by [r] are safe and the field is bounded: every
    entry of [r] is at least 0.1, and every entry of [U] and of [V] is
    smaller than 1.63 in absolute value. *)
Theorem flow_field_is_bounded :
  Forall (Forall (fun rv => 0.1 <= rv)) r /\
  Forall (Forall (fun u => Rabs u < 1.63)) U /\
  Forall (Forall (fun v => Rabs v < 1.63)) V.
Proof.
  pose proof grid_axis_range as Hg. split; [|split].
  - rewrite r_table.
    apply (Forall_table _ (fun _ => True)); try (apply Forall_forall; intros; exact Logic.I).
    intros yv xv _ _. rewrite spec_r_eq. apply spec_r_pos.
  - rewrite U_table.
    apply (Forall_table _ (fun v => 0.8 <= v <= 9.2)); try assumption.
    intros yv xv _ Hx. apply spec_U_bound, Hx.
  - rewrite V_table.
    apply (Forall_table _ (fun v => 0.8 <= v <= 9.2)); try assumption.
    intros yv xv Hy _. apply spec_V_bound, Hy.
Qed.

(** The scalar product of the field with the displacement from the centre,
    over the reals: the rotational part contributes nothing. *)
Lemma radial_component_table :
  np.zip2d Rplus (np.zip2d Rmult U dx) (np.zip2d Rmult V dy)
  = tabulate (fun yv xv => -0.15 * ((xv - 5) ^ 2 + (yv - 5) ^ 2))
             grid_axis grid_axis.
Proof.
  rewrite U_table, V_table, dx_table, dy_table, !zip2d_tabulate.
  apply tabulate_ext. intros yv xv. pose proof (spec_r_pos xv yv) as Hr.
  unfold spec_U, spec_V.
  replace 5.0 with 5 by lra. replace (-0.15) with (- (15 / 100)) by lra.
  replace 0.15 with (15 / 100) by lra. field. lra.
Qed.

(** X4. At every grid point the flow has an inward radial component: the
    scalar product of (U, V) with the displacement (dx, dy) from the centre
    is negative, and by a margin: it is at most -0.04 at each of the 144
    grid points (none of them is the centre). *)
Theorem flow_field_points_inward :
  Forall (Forall (fun p => p <= -0.04))
         (np.zip2d Rplus (np.zip2d Rmult U dx) (np.zip2d Rmult V dy)).
Proof.
  rewrite radial_component_table.
  apply (Forall_table _ (fun v => 0.38 <= Rabs (v - 5)));
    try apply grid_axis_off_centre.
  intros yv xv Hy Hx.
  assert (Hsq : forall a, 0.38 <= Rabs a -> 0.1444 <= a ^ 2).
  { intros a Ha. rewrite <- pow2_abs.
    replace (Rabs a ^ 2) with (Rabs a * Rabs a) by ring. nra. }
  pose proof (Hsq _ Hx). pose proof (Hsq _ Hy). lra.
Qed.

(** *** Runs cut short *)

Lemma paints_eq {A} (m : Py A) s L phi s1 s2 X1 X2 :
  paints m s L phi s1 X1 -> s1 = s2 -> X1 = X2 -> paints m s L phi s2 X2.
Proof. intros H <- <-. exact H. Qed.

Lemma paints_any {A} (m : Py A) s L phi s' X :
  paints m s L phi s' X -> paints m s L any_value s' X.
Proof.
  intros H. eapply triple_conseq; [exact H | | |]; cbn beta.
  - intros w Hw. exact Hw.
  - intros a w (_ & Hw). split; [exact Logic.I | exact Hw].
  - intros w Hw. exact Hw.
Qed.

Lemma paints_ret {A} (a : A) s L : paints (mret a) s L (eq a) s [].
Proof.
  apply triple_ret. intros w (Hs & HL). split; [reflexivity|].
  split; [exact Hs | rewrite app_nil_r; exact HL].
Qed.

Lemma paints_bind {A B} (m : Py A) (f : A -> Py B) s L phi s1 X1 psi s2 X2 :
  paints m s L phi s1 X1 ->
  (forall a, phi a -> paints (f a) s1 (L ++ X1) psi s2 X2) ->
  paints (m ≫= f) s L psi s2 (X1 ++ X2).
Proof.
  intros Hm Hf. eapply triple_bind.
  - eapply triple_conseq; [exact Hm | | |]; cbn beta.
    + intros w Hw. exact Hw.
    + intros a w Hw. exact Hw.
    + intros w (xs & rest & -> & Hxs).
      exists xs, (rest ++ X2). split; [apply eq_sym, app_assoc | exact Hxs].
  - intros a w (Ha & Hw). specialize (Hf a Ha w Hw).
    destruct (f a w) as [b w'|w'].
    + destruct Hf as (Hb & Hs & HL). split; [exact Hb|].
      split; [exact Hs | rewrite app_assoc; exact HL].
    + destruct Hf as (xs & rest & -> & Hxs).
      exists (X1 ++ xs), rest. split; [apply app_assoc|].
      rewrite app_assoc. exact Hxs.
Qed.

Lemma paints_call {A} (f : World -> A * World) s L (phi : A -> Prop) s' X :
  (forall w, st s L w -> phi (fst (f w)) /\ st s' (L ++ X) (snd (f w))) ->
  paints (call f) s L phi s' X.
Proof.
  intros H. apply triple_call.
  - intros w (Hs & HL) _. exists [], X. split; [reflexivity|].
    rewrite app_nil_r. exact HL.
  - intros w Hw _. destruct (H w Hw) as (Hphi & Hs & HL).
    split; [exact Hphi|]. split; [exact Hs | exact HL].
Qed.

Lemma paints_draw (a : Artist) s L :
  paints (call (draw a)) s L any_value s [a].
Proof.
  apply paints_call. intros w (Hs & HL). split; [exact Logic.I|].
  split; [exact Hs|]. cbn [draw snd fig set_fig add_artist artists].
  rewrite HL. reflexivity.
Qed.

Lemma paints_imshow img extent asp alpha s L :
  paints (ax_imshow img extent asp alpha) s L any_value s
         [AxesImage img extent alpha].
Proof.
  apply paints_call. intros w (Hs & HL). split; [exact Logic.I|].
  split; [exact Hs|].
  cbn [on_fig snd fig set_fig set_aspect add_artist artists].
  rewrite HL. reflexivity.
Qed.

Lemma paints_pure {A} (v : A) s L :
  paints (call (fun w => (v, w))) s L (eq v) s [].
Proof.
  apply paints_call. intros w (Hs & HL). split; [reflexivity|].
  split; [exact Hs | rewrite app_nil_r; exact HL].
Qed.

Lemma paints_frame (f : World -> unit * World) s L :
  (forall w, rng_state (snd (f w)) = rng_state w /\
             artists (fig (snd (f w))) = artists (fig w)) ->
  paints (call f) s L any_value s [].
Proof.
  intros Hf. apply paints_call. intros w (Hs & HL).
  destruct (Hf w) as (H1 & H2). split; [exact Logic.I|].
  split; [rewrite H1; exact Hs | rewrite H2, app_nil_r; exact HL].
Qed.

Lemma paints_seed z s L :
  paints (np_random_seed z) s L any_value (mt_seed z) [].
Proof.
  apply paints_call. intros w (Hs & HL). split; [exact Logic.I|].
  split; [reflexivity | rewrite app_nil_r; exact HL].
Qed.

Lemma paints_uniform low high n s L :
  paints (np_random_uniform low high n) s L
         (eq (fst (uniform low high n s))) (snd (uniform low high n s)) [].
Proof.
  apply paints_call. intros w (Hs & HL). cbn [fst snd]. rewrite Hs.
  split; [reflexivity|]. split; [reflexivity | rewrite app_nil_r; exact HL].
Qed.

Lemma paints_for {A} (step : A -> rng -> list Artist * rng)
      (body : A -> Py unit) (l : list A) :
  (forall a s L, In a l ->
      paints (body a) s L any_value (snd (step a s)) (fst (step a s))) ->
  forall s L,
    paints (for_ l body) s L any_value
           (snd (loop_fold step l s)) (fst (loop_fold step l s)).
Proof.
  induction l as [|a l IH]; intros Hb s L.
  - cbn [for_ loop_fold fst snd]. apply paints_any with (phi := eq tt).
    apply paints_ret.
  - cbn [for_ loop_fold fst snd]. eapply paints_bind.
    + apply Hb. left. reflexivity.
    + intros u _. apply IH. intros b s0 L0 Hin. apply Hb. right. exact Hin.
Qed.

Lemma paints_for_pure {A} (g : A -> list Artist) (body : A -> Py unit)
      (l : list A) :
  (forall a s L, In a l -> paints (body a) s L any_value s (g a)) ->
  forall s L, paints (for_ l body) s L any_value s (flat_map g l).
Proof.
  intros Hb s L.
  pose proof (paints_for (fun a s0 => (g a, s0)) body l) as H.
  cbn [fst snd] in H. specialize (H Hb s L).
  rewrite loop_fold_pure in H. exact H.
Qed.

Ltac paint :=
  cbn beta;
  lazymatch goal with
  | |- paints (mret _) _ _ _ _ _ => apply paints_ret
  | |- paints (mbind _ _) _ _ _ _ _ =>
      eapply paints_bind;
      [ paint | let a := fresh "a" in
                intros a ?; try subst a; paint ]
  | |- paints (call (draw _)) _ _ _ _ _ => apply paints_draw
  | |- paints (ax_imshow _ _ _ _) _ _ _ _ _ => apply paints_imshow
  | |- paints (np_random_seed _) _ _ _ _ _ => apply paints_seed
  | |- paints (np_random_uniform _ _ _) _ _ _ _ _ => apply paints_uniform
  | |- paints (Triangulation_ _ _) _ _ _ _ _ =>
      unfold Triangulation_; apply paints_pure
  | |- paints (Circle_ _ _ _ _ _ _) _ _ _ _ _ => unfold Circle_; apply paints_pure
  | |- paints (plt_savefig png_name _) _ _ _ _ _ =>
      unfold plt_savefig; rewrite format_of_png; paint
  | |- paints (plt_savefig jpg_name _) _ _ _ _ _ =>
      unfold plt_savefig; rewrite format_of_jpg; paint
  | |- paints (call _) _ _ _ _ _ =>
      apply paints_frame; intros ?; split; reflexivity
  | |- paints ?m _ _ _ _ _ => let h := head_of m in unfold h; paint
  end.

Ltac paint_block :=
  eapply paints_eq; [paint | reflexivity | reflexivity].

Lemma paints_draw_background s L :
  paints draw_background s L any_value s gradient_image.
Proof. unfold draw_background. apply paints_imshow. Qed.

Lemma paints_draw_waves s L :
  paints draw_waves s L any_value s (flat_map wave_stroke wave_configs).
Proof.
  apply paints_for_pure.
  intros [[[[freq phase] alpha_val] lw] offset] s0 L0 _. paint_block.
Qed.

Lemma paints_draw_mesh s L :
  paints draw_mesh s L any_value
         (snd (loop_fold mesh_step mesh_regions (mt_seed 42))) mesh_lines.
Proof.
  unfold draw_mesh.
  eapply paints_eq; [eapply paints_bind; [apply paints_seed|] | reflexivity | reflexivity].
  intros u _. apply (paints_for mesh_step).
  intros [bounds n_pts] s0 L0 _. paint_block.
Qed.

Lemma paints_draw_flow_field s L :
  paints draw_flow_field s L any_value s flow_arrows.
Proof. paint_block. Qed.

Lemma paints_draw_equations s L :
  paints draw_equations s L any_value s (flat_map label equations).
Proof.
  apply paints_for_pure.
  intros [[eq [x_pos y_pos]] fsize] s0 L0 _. paint_block.
Qed.

Lemma paints_draw_circles s L :
  paints draw_circles s L any_value s (flat_map ring_pair circles).
Proof.
  apply paints_for_pure.
  intros [[[[cx cy] radius] alpha_val] lw] s0 L0 _. paint_block.
Qed.

Lemma paints_draw_grid s L :
  paints draw_grid s L any_value s
         (flat_map grid_cross (np.linspace 0.5 9.5 15)).
Proof. apply paints_for_pure. intros i s0 L0 _. paint_block. Qed.

Lemma paints_draw_corners s L :
  paints draw_corners s L any_value s (flat_map corner_mark corner_elements).
Proof.
  apply paints_for_pure. intros [[[cx cy] dx0] dy0] s0 L0 _. paint_block.
Qed.

Lemma paints_draw_particles s L :
  paints draw_particles s L any_value (snd alphas_draw) particle_dots.
Proof.
  unfold draw_particles.
  eapply paints_eq; [ | reflexivity | ].
  - eapply paints_bind; [apply paints_seed | intros u _].
    eapply paints_bind; [apply paints_uniform | intros px <-].
    eapply paints_bind; [apply paints_uniform | intros py <-].
    eapply paints_bind; [apply paints_uniform | intros sizes <-].
    eapply paints_bind; [apply paints_uniform | intros alphas <-].
    apply (paints_for_pure dot). intros i s0 L0 _. paint_block.
  - reflexivity.
Qed.

Lemma paints_clean_up s L : paints clean_up s L any_value s [].
Proof. paint_block. Qed.

Lemma paints_save_outputs s L : paints save_outputs s L any_value s [].
Proof. paint_block. Qed.

Lemma paints_report s L : paints report s L any_value s [].
Proof. paint_block. Qed.

Lemma paints_plt_figure size dpi s :
  paints (plt_figure size dpi) s [] any_value s [].
Proof.
  apply paints_call. intros w (Hs & HL). split; [exact Logic.I|].
  split; [exact Hs | reflexivity].
Qed.

Lemma paints_main s :
  paints main s [] any_value (snd alphas_draw) all_artists.
Proof.
  unfold main. eapply paints_eq; [ | reflexivity | ].
  - eapply paints_bind; [apply paints_plt_figure | intros u1 _].
    eapply paints_bind; [unfold plt_gca; apply paints_frame;
                         intros ?; split; reflexivity | intros u2 _].
    eapply paints_bind; [apply paints_draw_background | intros u3 _].
    eapply paints_bind; [apply paints_draw_waves | intros u4 _].
    eapply paints_bind; [apply paints_draw_mesh | intros u5 _].
    eapply paints_bind; [apply paints_draw_flow_field | intros u6 _].
    eapply paints_bind; [apply paints_draw_equations | intros u7 _].
    eapply paints_bind; [apply paints_draw_circles | intros u8 _].
    eapply paints_bind; [apply paints_draw_grid | intros u9 _].
    eapply paints_bind; [apply paints_draw_corners | intros u10 _].
    eapply paints_bind; [apply paints_draw_particles | intros u11 _].
    eapply paints_bind; [apply paints_clean_up | intros u12 _].
    eapply paints_bind; [apply paints_save_outputs | intros u13 _].
    apply paints_report.
  - cbn [app]. rewrite app_nil_r. reflexivity.
Qed.

(** What any run, complete or not, has on the axes: an initial part of the
    complete drawing. *)
Lemma run_artists_prefix entropy disk :
  exists rest,
    all_artists = artists (fig (world_of (run entropy disk))) ++ rest.
Proof.
  assert (H0 : st entropy [] (initial_world entropy disk)) by (split; reflexivity).
  pose proof (paints_main entropy _ H0) as H. unfold run.
  destruct (main (initial_world entropy disk)) as [u w|w]; cbn [world_of].
  - destruct H as (_ & _ & HL). exists []. rewrite HL, app_nil_r. reflexivity.
  - destruct H as (xs & rest & HX & HL). exists rest. rewrite HL. exact HX.
Qed.

Lemma Forall_initial_part {A} (P : A -> Prop) (l xs rest : list A) :
  l = xs ++ rest -> Forall P l -> Forall P xs.
Proof. intros -> H. apply Forall_app in H. apply H. Qed.

(** X6. A run only ever appends to the axes, in the fixed order: whenever
    and however it stops, what it has drawn is an initial part of the
    complete drawing, and a run that returns has drawn all of it. *)
Theorem interrupted_run_draws_initial_part (entropy : rng)
        (disk : gmap string ImageFile) :
  (exists rest,
      all_artists = artists (fig (world_of (run entropy disk))) ++ rest) /\
  match run entropy disk with
  | Returned _ w => artists (fig w) = all_artists
  | Raised w => (length (artists (fig w)) <= length all_artists)%nat
  end.
Proof.
  pose proof (run_artists_prefix entropy disk) as Hp. split; [exact Hp|].
  assert (H0 : st entropy [] (initial_world entropy disk)) by (split; reflexivity).
  pose proof (paints_main entropy _ H0) as H. unfold run in *.
  destruct (main (initial_world entropy disk)) as [u w|w]; cbn [world_of] in *.
  - destruct H as (_ & _ & HL). exact HL.
  - destruct Hp as (rest & ->). rewrite length_app. lia.
Qed.

(** *** Invariants of every artist *)

Lemma Forall_flat_map_In {A B} (P : B -> Prop) (g : A -> list B) (l : list A) :
  (forall a, In a l -> Forall P (g a)) -> Forall P (flat_map g l).
Proof.
  induction l as [|a l IH]; intros H; cbn [flat_map]; [constructor|].
  apply Forall_app. split.
  - apply H. left. reflexivity.
  - apply IH. intros b Hb. apply H. right. exact Hb.
Qed.

Lemma nth_Forall_lt {A} (P : A -> Prop) (l : list A) (i : nat) (d : A) :
  (i < length l)%nat -> Forall P l -> P (nth i l d).
Proof.
  intros Hi Hl. revert i Hi. induction Hl as [|v l Hv Hl IH]; intros i Hi.
  - cbn in Hi. lia.
  - destruct i as [|i]; cbn [nth]; [exact Hv|]. apply IH. cbn in Hi. lia.
Qed.

Lemma wave_ordinate_band freq phase offset ti :
  offset - 1.5 <= wave_ordinate freq phase offset ti <= offset + 1.5.
Proof.
  unfold wave_ordinate.
  pose proof (SIN_bound (freq * ti + phase)).
  pose proof (SIN_bound (freq * 2 * ti)). lra.
Qed.

Lemma background_shape :
  length background = 200%nat /\
  Forall (fun row => length row = 200%nat) background.
Proof.
  rewrite background_table.
  split; [rewrite length_map; apply linspace_length|].
  apply Forall_map, Forall_forall. intros yv _. cbn beta.
  rewrite length_map. apply linspace_length.
Qed.

Lemma t_range : Forall in_canvas t.
Proof. apply linspace_range. lra. Qed.

Lemma waves_within_canvas :
  Forall within_canvas (flat_map wave_stroke wave_configs).
Proof.
  apply Forall_flat_map_In. intros cfg Hin. unfold wave_configs in Hin.
  tuple_cases Hin.
  all: constructor; [|constructor]; cbn [within_canvas]; split; [apply t_range|].
  all: unfold y_wave; apply Forall_map, Forall_forall; intros ti _.
  all: match goal with
       | |- in_canvas (wave_ordinate ?f ?p ?o ?x) =>
           pose proof (wave_ordinate_band f p o x); unfold in_canvas; lra
       end.
Qed.

Lemma mesh_within_canvas :
  unit_interval_rng -> Forall within_canvas mesh_lines.
Proof.
  intros Hs. pose proof (mesh_lines_regions Hs) as Hmesh.
  induction Hmesh as [|region a rs ms Ha _ IH]; [constructor|].
  constructor; [|exact IH].
  destruct Ha as (mx & my & -> & _ & _ & Hx & Hy & H0 & H1 & H2 & H3).
  cbn [within_canvas tri_x tri_y]. split.
  - apply (in_canvas_within _ _ mx H0 H1 Hx).
  - apply (in_canvas_within _ _ my H2 H3 Hy).
Qed.

Lemma flow_within_canvas : Forall within_canvas flow_arrows.
Proof.
  constructor; [|constructor]. cbn [within_canvas].
  assert (Hg : Forall (fun v => 0.8 <= v <= 9.2) grid_axis)
    by (apply linspace_range; lra).
  split.
  - rewrite X_grid_table.
    apply (Forall_table _ (fun v => 0.8 <= v <= 9.2)); try assumption.
    intros ? ? ? ?. unfold in_canvas. lra.
  - rewrite Y_grid_table.
    apply (Forall_table _ (fun v => 0.8 <= v <= 9.2)); try assumption.
    intros ? ? ? ?. unfold in_canvas. lra.
Qed.

Lemma labels_within_canvas : Forall within_canvas (flat_map label equations).
Proof.
  apply Forall_flat_map_In. intros e Hin. unfold equations in Hin.
  tuple_cases Hin.
  all: constructor; [|constructor]; cbn [within_canvas]; unfold in_canvas; lra.
Qed.

Lemma rings_within_canvas : Forall within_canvas (flat_map ring_pair circles).
Proof.
  apply Forall_flat_map_In. intros c Hin. unfold circles in Hin.
  tuple_cases Hin.
  all: repeat (constructor;
               [cbn [within_canvas]; unfold circle_in_canvas;
                cbn [center radius fst snd]; lra|]).
  all: constructor.
Qed.

Lemma grid_within_canvas :
  Forall within_canvas (flat_map grid_cross (np.linspace 0.5 9.5 15)).
Proof.
  apply Forall_flat_map. eapply Forall_impl.
  - apply (linspace_range 0.5 9.5 15). lra.
  - cbn beta. intros i Hi. unfold grid_cross.
    repeat (constructor;
            [cbn [within_canvas]; split;
             repeat (constructor; [unfold in_canvas; lra|]); constructor|]).
    constructor.
Qed.

Lemma corners_within_canvas :
  Forall within_canvas (flat_map corner_mark corner_elements).
Proof.
  apply Forall_flat_map_In. intros c Hin. unfold corner_elements in Hin.
  tuple_cases Hin.
  all: repeat (constructor;
               [cbn [within_canvas]; split;
                repeat (constructor; [unfold in_canvas; lra|]); constructor|]).
  all: constructor.
Qed.

Lemma dots_within_canvas :
  unit_interval_rng -> Forall within_canvas particle_dots.
Proof.
  intros Hs. unfold particle_dots. apply Forall_flat_map, Forall_forall.
  intros i _. unfold dot. constructor; [|constructor].
  cbn [within_canvas]. split.
  - apply (nth_Forall in_canvas); [|unfold in_canvas; lra].
    apply (in_canvas_within 0 10); [lra | lra |].
    apply uniform_range; [exact Hs | lra].
  - apply (nth_Forall in_canvas); [|unfold in_canvas; lra].
    apply (in_canvas_within 0 10); [lra | lra |].
    apply uniform_range; [exact Hs | lra].
Qed.

Lemma all_artists_within_canvas :
  unit_interval_rng -> Forall within_canvas all_artists.
Proof.
  intros Hs. unfold all_artists. rewrite !Forall_app.
  repeat split.
  - constructor; [|constructor]. cbn [within_canvas]. unfold in_canvas. lra.
  - apply waves_within_canvas.
  - apply mesh_within_canvas, Hs.
  - apply flow_within_canvas.
  - apply labels_within_canvas.
  - apply rings_within_canvas.
  - apply grid_within_canvas.
  - apply corners_within_canvas.
  - apply dots_within_canvas, Hs.
Qed.

(** X7. Nothing is placed outside the canvas: in every run, complete or
    cut short, each artist on the axes has its coordinates in
    [[0, 10] x [0, 10]] - the image extent, every vertex of every line, every
    mesh point, arrow base, label anchor and particle, and every circle as a
    whole. *)
Theorem everything_within_canvas (entropy : rng)
        (disk : gmap string ImageFile) :
  unit_interval_rng ->
  Forall within_canvas (artists (fig (world_of (run entropy disk)))).
Proof.
  intros Hs. destruct (run_artists_prefix entropy disk) as (rest & Hrest).
  apply (Forall_initial_part _ _ _ _ Hrest), all_artists_within_canvas, Hs.
Qed.

Lemma all_artists_well_shaped : Forall well_shaped all_artists.
Proof.
  unfold all_artists. rewrite !Forall_app. repeat split.
  - constructor; [|constructor]. cbn [well_shaped].
    exists 200%nat. apply background_shape.
  - apply Forall_flat_map_In. intros [[[[freq phase] alpha_val] lw] offset] _.
    constructor; [|constructor]. cbn [well_shaped].
    unfold y_wave. rewrite length_map. reflexivity.
  - unfold mesh_lines, mesh_regions. cbn [loop_fold mesh_step fst snd app].
    repeat (constructor;
            [cbn [well_shaped tri_x tri_y nth]; rewrite !uniform_length;
             split; [reflexivity | lia]|]).
    constructor.
  - constructor; [|constructor]. cbn [well_shaped]. repeat split; reflexivity.
  - apply Forall_flat_map_In. intros [[eq [x_pos y_pos]] fsize] _.
    constructor; [exact Logic.I | constructor].
  - apply Forall_flat_map_In. intros [[[[cx cy] radius] alpha_val] lw] _.
    repeat (constructor; [exact Logic.I|]). constructor.
  - apply Forall_flat_map_In. intros i _. unfold grid_cross.
    repeat (constructor; [reflexivity|]). constructor.
  - apply Forall_flat_map_In. intros [[[cx cy] dx0] dy0] _.
    repeat (constructor; [reflexivity|]). constructor.
  - unfold particle_dots. apply Forall_flat_map_In. intros i _.
    constructor; [exact Logic.I | constructor].
Qed.

(** X8. The arrays handed to a drawing call always fit together: in every
    run each line has as many abscissae as ordinates, each triangulation
    has as many x as y coordinates and at least three points, the four
    arrays of the quiver have one shape and the image is rectangular. *)
Theorem drawing_calls_are_well_shaped (entropy : rng)
        (disk : gmap string ImageFile) :
  Forall well_shaped (artists (fig (world_of (run entropy disk)))).
Proof.
  destruct (run_artists_prefix entropy disk) as (rest & Hrest).
  apply (Forall_initial_part _ _ _ _ Hrest), all_artists_well_shaped.
Qed.

Lemma dots_style : unit_interval_rng -> Forall particle_style particle_dots.
Proof.
  intros Hs. unfold particle_dots. apply Forall_flat_map_In.
  intros i Hi. apply in_seq in Hi. unfold dot. constructor; [|constructor].
  cbn [particle_style]. split; [reflexivity|]. split; [reflexivity|]. split.
  - apply (nth_Forall_lt (fun v => 1 <= v <= 4)).
    + unfold sizes_draw. rewrite uniform_length. lia.
    + apply uniform_range; [exact Hs | lra].
  - apply (nth_Forall_lt (fun v => 0.05 <= v <= 0.15)).
    + unfold alphas_draw. rewrite uniform_length. lia.
    + apply uniform_range; [exact Hs | lra].
Qed.

Lemma no_marker_style (l : list Artist) :
  Forall (fun a => kind_of a <> KMarker) l -> Forall particle_style l.
Proof.
  intros H. eapply Forall_impl; [exact H|]. cbn beta.
  intros [] Ha; cbn [particle_style]; try exact Logic.I.
  exfalso. apply Ha. reflexivity.
Qed.

Lemma all_artists_particle_style :
  unit_interval_rng -> Forall particle_style all_artists.
Proof.
  intros Hs. unfold all_artists. rewrite !Forall_app. repeat split.
  9: apply dots_style, Hs.
  all: apply no_marker_style.
  - repeat constructor; discriminate.
  - apply Forall_flat_map_In. intros [[[[? ?] ?] ?] ?] _.
    repeat constructor; discriminate.
  - unfold mesh_lines, mesh_regions. cbn [loop_fold mesh_step fst snd app].
    repeat constructor; discriminate.
  - repeat constructor; discriminate.
  - apply Forall_flat_map_In. intros [[? [? ?]] ?] _.
    repeat constructor; discriminate.
  - apply Forall_flat_map_In. intros [[[[? ?] ?] ?] ?] _.
    repeat constructor; discriminate.
  - apply Forall_flat_map_In. intros ? _. repeat constructor; discriminate.
  - apply Forall_flat_map_In. intros [[[? ?] ?] ?] _.
    repeat constructor; discriminate.
Qed.

(** X9. Every marker that a run puts on the axes is a white dot ['o'] of
    size between 1 and 4 and opacity between 0.05 and 0.15. *)
Theorem particles_are_faint_dots (entropy : rng)
        (disk : gmap string ImageFile) :
  unit_interval_rng ->
  Forall particle_style (artists (fig (world_of (run entropy disk)))).
Proof.
  intros Hs. destruct (run_artists_prefix entropy disk) as (rest & Hrest).
  apply (Forall_initial_part _ _ _ _ Hrest), all_artists_particle_style, Hs.
Qed.

(** *** Files and output *)

Lemma quiet_ret {A} (a : A) : quiet 0 (mret a).
Proof.
  intros c D O. apply triple_ret. intros w (Hc & HD & HO).
  repeat split; [lia | exact HD | exact HO].
Qed.

Lemma quiet_call {A} (f : World -> A * World) :
  (forall w, calls (snd (f w)) = calls w /\ files (snd (f w)) = files w /\
             stdout (snd (f w)) = stdout w) ->
  quiet 1 (call f).
Proof.
  intros Hf c D O. apply triple_call.
  - intros w Hw _. exists c. split; [lia | exact Hw].
  - intros w (Hc & HD & HO) _. destruct (Hf w) as (H1 & H2 & H3).
    repeat split; cbn [tick calls files stdout]; [lia | congruence | congruence].
Qed.

Lemma quiet_bind {A B} (m : Py A) (f : A -> Py B) n k :
  quiet n m -> (forall a, quiet k (f a)) -> quiet (n + k) (m ≫= f).
Proof.
  intros Hm Hf c D O. eapply triple_bind.
  - eapply triple_conseq; [apply (Hm c D O) | | |]; cbn beta.
    + intros w Hw. exact Hw.
    + intros a w Hw. exact Hw.
    + intros w (c' & Hc' & Hw). exists c'. split; [lia | exact Hw].
  - intros a. eapply triple_conseq; [apply (Hf a (c + n)%nat D O) | | |];
      cbn beta.
    + intros w Hw. exact Hw.
    + intros b w (Hc & HD & HO). repeat split; [lia | exact HD | exact HO].
    + intros w (c' & Hc' & Hw). exists c'. split; [lia | exact Hw].
Qed.

Lemma quiet_for {A} (l : list A) (body : A -> Py unit) k :
  (forall a, quiet k (body a)) -> quiet (length l * k) (for_ l body).
Proof.
  intros Hb. induction l as [|a l IH]; cbn [for_ length Nat.mul].
  - apply quiet_ret.
  - apply quiet_bind; [apply Hb | intros u; exact IH].
Qed.

Lemma quiet_eq {A} (m : Py A) n n' : quiet n m -> n = n' -> quiet n' m.
Proof. intros H <-. exact H. Qed.

Ltac hush :=
  cbn beta;
  lazymatch goal with
  | |- quiet _ (mret _) => apply quiet_ret
  | |- quiet _ (mbind _ _) => eapply quiet_bind; [hush | intros ?; hush]
  | |- quiet _ (for_ _ _) => eapply quiet_for; intros ?; hush
  | |- quiet _ (call _) =>
      apply quiet_call; intros ?; repeat split; reflexivity
  | |- quiet _ (match ?v with _ => _ end) => destruct v; hush
  | |- quiet _ ?m => let h := head_of m in unfold h; hush
  end.

Lemma quiet_then {A B} (m : Py A) (f : A -> Py B) n c c' D O
      (Q : B -> World -> Prop) (E : World -> Prop) :
  quiet n m -> c' = (c + n)%nat ->
  (forall w k, (c <= k < c')%nat -> io k D O w -> E w) ->
  (forall a, triple (io c' D O) (f a) Q E) ->
  triple (io c D O) (m ≫= f) Q E.
Proof.
  intros Hm -> HE Hf. eapply triple_bind.
  - eapply triple_conseq; [apply (Hm c D O) | | |]; cbn beta.
    + intros w Hw. exact Hw.
    + intros a w Hw. exact Hw.
    + intros w (k & Hk & Hw). apply (HE w k Hk Hw).
  - exact Hf.
Qed.

(** The seven calls that write and print. *)
Lemma save_and_report_phases disk :
  triple (io 161 disk []) (save_outputs ;; report)
         (fun _ w => phase disk w) (phase disk).
Proof.
  intros [s F D O c] (Hc & HD & HO). cbn [calls files stdout] in *. subst c D O.
  unfold save_outputs, report, plt_tight_layout, plt_savefig, plt_close, print.
  rewrite format_of_png, format_of_jpg.
  unfold mbind, Py_bind, py_bind, call.
  cbn [calls tick snd fst on_fig set_fig set_files set_stdout files stdout fig].
  repeat (match goal with
          | |- context [raises ?k] => destruct (raises k)
          end;
          cbn [calls tick snd fst on_fig set_fig set_files set_stdout files
               stdout fig]).
  all: unfold phase;
    cbn [calls tick snd fst on_fig set_fig set_files set_stdout files
         stdout fig].
  all: first
         [ left; split; [lia|]; split; reflexivity
         | right; left; split; [reflexivity|]; split;
           [eexists; reflexivity | reflexivity]
         | right; right; split; [lia|]; split;
           [eexists; reflexivity | reflexivity] ].
Qed.

(** In every run the state is in one of the three phases. *)
Lemma run_phase entropy disk : phase disk (world_of (run entropy disk)).
Proof.
  assert (H0 : io 0 disk [] (initial_world entropy disk))
    by (repeat split; reflexivity).
  assert (HE : forall hi w k, (hi <= 161)%nat -> (k < hi)%nat ->
                              io k disk [] w -> phase disk w).
  { intros hi w k Hhi Hk (Hc & HD & HO). left. repeat split; [lia | exact HD | exact HO]. }
  assert (H : triple (io 0 disk []) main (fun _ w => phase disk w) (phase disk)).
  { unfold main.
    eapply (quiet_then _ _ 1 0 1); [eapply quiet_eq; [hush|reflexivity] | reflexivity | intros w k Hk; apply (HE 1%nat); lia | intros u1].
    eapply (quiet_then _ _ 1 1 2); [eapply quiet_eq; [hush|reflexivity] | reflexivity | intros w k Hk; apply (HE 2%nat); lia | intros u2].
    eapply (quiet_then _ _ 1 2 3); [eapply quiet_eq; [hush|reflexivity] | reflexivity | intros w k Hk; apply (HE 3%nat); lia | intros u3].
    eapply (quiet_then _ _ 5 3 8); [eapply quiet_eq; [hush|reflexivity] | reflexivity | intros w k Hk; apply (HE 8%nat); lia | intros u4].
    eapply (quiet_then _ _ 13 8 21); [eapply quiet_eq; [hush|reflexivity] | reflexivity | intros w k Hk; apply (HE 21%nat); lia | intros u5].
    eapply (quiet_then _ _ 1 21 22); [eapply quiet_eq; [hush|reflexivity] | reflexivity | intros w k Hk; apply (HE 22%nat); lia | intros u6].
    eapply (quiet_then _ _ 4 22 26); [eapply quiet_eq; [hush|reflexivity] | reflexivity | intros w k Hk; apply (HE 26%nat); lia | intros u7].
    eapply (quiet_then _ _ 12 26 38); [eapply quiet_eq; [hush|reflexivity] | reflexivity | intros w k Hk; apply (HE 38%nat); lia | intros u8].
    eapply (quiet_then _ _ 30 38 68); [eapply quiet_eq; [hush|reflexivity] | reflexivity | intros w k Hk; apply (HE 68%nat); lia | intros u9].
    eapply (quiet_then _ _ 4 68 72); [eapply quiet_eq; [hush|reflexivity] | reflexivity | intros w k Hk; apply (HE 72%nat); lia | intros u10].
    eapply (quiet_then _ _ 85 72 157); [eapply quiet_eq; [hush|reflexivity] | reflexivity | intros w k Hk; apply (HE 157%nat); lia | intros u11].
    eapply (quiet_then _ _ 4 157 161); [eapply quiet_eq; [hush|reflexivity] | reflexivity | intros w k Hk; apply (HE 161%nat); lia | intros u12].
    apply save_and_report_phases. }
  specialize (H _ H0). unfold run.
  destruct (main (initial_world entropy disk)) as [u w|w]; exact H.
Qed.

(** X10. Whenever and however a run stops: no file other than the two
    outputs has been touched; the JPEG has been written only if the PNG
    has; a status line has been printed only if both images were written;
    and what has been printed is an initial part of the three status
    lines. *)
Theorem run_touches_only_its_outputs (entropy : rng)
        (disk : gmap string ImageFile) :
  (forall name, name <> png_name -> name <> jpg_name ->
                files (world_of (run entropy disk)) !! name = disk !! name) /\
  (files (world_of (run entropy disk)) !! jpg_name <> disk !! jpg_name ->
   is_Some (files (world_of (run entropy disk)) !! png_name)) /\
  (stdout (world_of (run entropy disk)) <> [] ->
   is_Some (files (world_of (run entropy disk)) !! png_name) /\
   is_Some (files (world_of (run entropy disk)) !! jpg_name)) /\
  (exists k, stdout (world_of (run entropy disk)) = take k status_lines).
Proof.
  pose proof (run_phase entropy disk) as H.
  destruct H as [(Hc & HD & HO) | [(Hc & (F & HD) & HO) | (Hc & (F & HD) & HO)]];
    rewrite HD, HO.
  - split; [intros name _ _; reflexivity|].
    split; [intros Hne; contradiction|].
    split; [intros Hne; contradiction|].
    exists 0%nat. reflexivity.
  - split; [intros name H1 H2; apply lookup_insert_ne; congruence|].
    split; [intros _; rewrite lookup_insert_eq; eexists; reflexivity|].
    split; [intros Hne; contradiction|].
    exists 0%nat. reflexivity.
  - assert (Hpng : is_Some
                     ((<[jpg_name := savefig_image get_tightbbox F JPEG jpg_opts]>
                         (<[png_name := savefig_image get_tightbbox F PNG png_opts]>
                            disk)) !! png_name)).
    { rewrite lookup_insert_ne by (symmetry; apply png_jpg_names).
      rewrite lookup_insert_eq. eexists. reflexivity. }
    split; [intros name H1 H2; rewrite !lookup_insert_ne by congruence;
            reflexivity|].
    split; [intros _; exact Hpng|].
    split; [intros _; split; [exact Hpng|];
            rewrite lookup_insert_eq; eexists; reflexivity|].
    eexists. reflexivity.
Qed.

(** X11. What a failed run leaves behind depends on the call that raised
    (a call that raises has no effect of its own): up to and including the
    first [savefig] (calls 0 to 162) the directory is untouched and nothing
    is printed; at the second [savefig] (call 163) the PNG is already
    written and the JPEG is not; from [plt.close] on (calls 164 to 167) both
    files are written and the status lines printed are those of the [print]
    calls that completed. *)
Theorem failed_run_by_position (entropy : rng) (disk : gmap string ImageFile)
        (k : nat) :
  first_fault n_calls = Some k ->
  exists w,
    run entropy disk = Raised w /\ calls w = k /\
    ((k <= 162)%nat -> files w = disk /\ stdout w = []) /\
    (k = 163%nat ->
     (exists F, files w
                = <[png_name := savefig_image get_tightbbox F PNG png_opts]> disk) /\
     files w !! jpg_name = disk !! jpg_name /\ stdout w = []) /\
    ((164 <= k)%nat ->
     (exists F, files w
                = <[jpg_name := savefig_image get_tightbbox F JPEG jpg_opts]>
                    (<[png_name := savefig_image get_tightbbox F PNG png_opts]> disk)) /\
     stdout w = take (k - 165) status_lines).
Proof.
  intros Hk. pose proof (run_cases entropy disk) as Hr. rewrite Hk in Hr.
  destruct Hr as (w & Hrun & Hc & Hlt).
  pose proof (run_phase entropy disk) as H. rewrite Hrun in H. cbn [world_of] in H.
  exists w. split; [exact Hrun|]. split; [exact Hc|]. rewrite <- Hc.
  destruct H as [(Hp & HD & HO) | [(Hp & (F & HD) & HO) | (Hp & (F & HD) & HO)]].
  - repeat split; intros; try lia; assumption.
  - split; [intros; lia|]. split; [|intros; lia]. intros _.
    split; [exists F; exact HD|]. split; [|exact HO].
    rewrite HD. apply lookup_insert_ne, png_jpg_names.
  - split; [intros; lia|]. split; [intros; lia|]. intros _.
    split; [exists F; exact HD | exact HO].
Qed.

(** X12. The two files of a complete run show the same drawing, all of
    it, at the same size; they differ in format, in the opacity channel and
    in the colour behind the drawing. *)
Theorem outputs_show_the_same_drawing (entropy : rng)
        (disk : gmap string ImageFile) :
  first_fault n_calls = None ->
  exists w png jpg,
    run entropy disk = Returned tt w /\
    files w !! png_name = Some png /\
    files w !! jpg_name = Some jpg /\
    img_content png = all_artists /\
    img_content jpg = img_content png /\
    img_size jpg = img_size png /\
    img_format png <> img_format jpg /\
    img_alpha_channel png <> img_alpha_channel jpg /\
    img_fill png <> img_fill jpg.
Proof.
  intros Hok.
  destruct (saved_files entropy disk Hok) as (w & Hrun & Hpng & Hjpg & _).
  exists w, png_image, jpg_image.
  split; [exact Hrun|]. split; [exact Hpng|]. split; [exact Hjpg|].
  split; [reflexivity|]. split; [reflexivity|]. split; [reflexivity|].
  rewrite png_image_eq, jpg_image_eq.
  cbn [img_format img_alpha_channel img_fill]. repeat split; discriminate.
Qed.

(** X13. Generating again is idempotent on the directory: a second
    complete run, started in the directory the first one left, and from any
    generator state, leaves the same files. *)
Theorem second_run_changes_nothing (entropy1 entropy2 : rng)
        (disk : gmap string ImageFile) :
  first_fault n_calls = None ->
  exists w1 w2,
    run entropy1 disk = Returned tt w1 /\
    run entropy2 (files w1) = Returned tt w2 /\
    files w2 = files w1.
Proof.
  intros Hok.
  destruct (run_success entropy1 disk Hok) as (w1 & Hrun1 & _ & _ & _ & Hf1 & _).
  destruct (run_success entropy2 (files w1) Hok)
    as (w2 & Hrun2 & _ & _ & _ & Hf2 & _).
  exists w1, w2. split; [exact Hrun1|]. split; [exact Hrun2|].
  rewrite Hf2, Hf1. apply map_eq. intros name.
  destruct (decide (name = jpg_name)) as [->|Hj].
  - rewrite !lookup_insert_eq. reflexivity.
  - rewrite (lookup_insert_ne _ jpg_name name) by congruence.
    destruct (decide (name = png_name)) as [->|Hp].
    + rewrite !lookup_insert_eq.
      rewrite lookup_insert_ne by congruence.
      rewrite lookup_insert_eq. reflexivity.
    + rewrite !lookup_insert_ne by congruence. reflexivity.
Qed.

End Script.

Arguments Returned {rng A} a w.
Arguments Raised {rng A} w.
Arguments rng_state {rng} w.
Arguments fig {rng} w.
Arguments files {rng} w.
Arguments stdout {rng} w.
Arguments calls {rng} w.
Arguments exit_code {rng} flush_fails {A} o.
Arguments delivered {rng} flush_fails {A} o.
Arguments world_of {rng A} o.

Abbreviation toy_run raises :=
  (run nat toy_seed toy_sample raises equal_aspect_box 0%nat ∅).
Abbreviation toy_world := (World nat).

(** ** The properties on the concrete environment *)

Lemma toy_sample_range : unit_interval_rng nat toy_sample.
Proof.
  intros s. unfold toy_sample. destruct (Nat.even s); cbn [fst]; lra.
Qed.

Lemma draw_operations_in_order_witness :
  first_fault no_faults n_calls = None /\
  exists w : toy_world,
    toy_run no_faults = Returned tt w /\
    artists (fig w)
      = gradient_image
          ++ flat_map wave_stroke wave_configs
          ++ mesh_lines nat toy_seed toy_sample
          ++ flow_arrows
          ++ flat_map label equations
          ++ flat_map ring_pair circles
          ++ flat_map grid_cross (np.linspace 0.5 9.5 15)
          ++ flat_map corner_mark corner_elements
          ++ particle_dots nat toy_seed toy_sample /\
    map kind_of (artists (fig w))
      = [KImage] ++ repeat KLine 5 ++ repeat KTriplot 3 ++ [KQuiver]
          ++ repeat KText 4 ++ repeat KCircle (3 * 2)
          ++ repeat KLine (15 * 2) ++ repeat KLine (2 * 2)
          ++ repeat KMarker 80 /\
    map (@length R) X_grid = repeat 12%nat 12 /\
    map (@length R) Y_grid = repeat 12%nat 12 /\
    map (@length R) U = repeat 12%nat 12 /\
    map (@length R) V = repeat 12%nat 12.
Proof.
  split; [reflexivity|].
  apply (draw_operations_in_order nat toy_seed toy_sample no_faults
           equal_aspect_box 0%nat ∅).
  reflexivity.
Defined.

Lemma equal_aspect_box_saved_figure :
  equal_aspect_box (saved_figure nat toy_seed toy_sample) = (10.8, 10.8).
Proof.
  unfold equal_aspect_box.
  cbn [aspect saved_figure figsize fst snd String.eqb Ascii.eqb Bool.eqb].
  rewrite Rmin_right by lra. reflexivity.
Qed.

Lemma output_dimensions_witness :
  first_fault no_faults n_calls = None /\
  exists (w : toy_world) png jpg,
    toy_run no_faults = Returned tt w /\
    files w !! png_name = Some png /\
    files w !! jpg_name = Some jpg /\
    img_size png = img_size jpg /\
    img_size png
      = (fst (equal_aspect_box (saved_figure nat toy_seed toy_sample)) * 200,
         snd (equal_aspect_box (saved_figure nat toy_seed toy_sample)) * 200) /\
    (fst (figsize (saved_figure nat toy_seed toy_sample))
       * fig_dpi (saved_figure nat toy_seed toy_sample),
     snd (figsize (saved_figure nat toy_seed toy_sample))
       * fig_dpi (saved_figure nat toy_seed toy_sample)) = (3840, 2160) /\
    (img_size png = (3840, 2160) <->
     equal_aspect_box (saved_figure nat toy_seed toy_sample) = (19.2, 10.8)) /\
    (equal_aspect_box (saved_figure nat toy_seed toy_sample)
     = equal_aspect_box (saved_figure nat toy_seed toy_sample) ->
     img_size png = (2160, 2160)).
Proof.
  split; [reflexivity|].
  apply (output_dimensions nat toy_seed toy_sample no_faults
           equal_aspect_box 0%nat ∅).
  reflexivity.
Defined.

(** C3, as the specification states it, fails: with the axes set to equal
    aspect on equal limits the content occupies the largest square of the
    16:9 figure, and the files cropped to it are 2160 x 2160, not
    3840 x 2160. *)
Lemma output_dimensions_counterexample :
  exists (w : toy_world) png jpg,
    toy_run no_faults = Returned tt w /\
    files w !! png_name = Some png /\
    files w !! jpg_name = Some jpg /\
    img_size png = (2160, 2160) /\
    img_size jpg = (2160, 2160) /\
    img_size png <> (19.2 * 200, 10.8 * 200).
Proof.
  destruct (saved_files nat toy_seed toy_sample no_faults equal_aspect_box
              0%nat ∅ eq_refl) as (w & Hrun & Hpng & Hjpg & _).
  exists w, (png_image nat toy_seed toy_sample equal_aspect_box),
    (jpg_image nat toy_seed toy_sample equal_aspect_box).
  split; [exact Hrun|]. split; [exact Hpng|]. split; [exact Hjpg|].
  unfold png_image, jpg_image, savefig_image, saved_region.
  cbn [img_size bbox_inches png_opts jpg_opts pad_inches dpi String.eqb
       Ascii.eqb Bool.eqb].
  rewrite equal_aspect_box_saved_figure. cbn [fst snd].
  split; [f_equal; lra|]. split; [f_equal; lra|].
  intros H. injection H as H1 H2. lra.
Qed.

Lemma random_points_in_canvas_witness :
  unit_interval_rng nat toy_sample /\
  first_fault no_faults n_calls = None /\
  exists w : toy_world,
    toy_run no_faults = Returned tt w /\
    artists (fig w) = all_artists nat toy_seed toy_sample /\
    Forall2 mesh_of_region mesh_regions (mesh_lines nat toy_seed toy_sample) /\
    length (fst (px_draw nat toy_seed toy_sample)) = 80%nat /\
    length (fst (py_draw nat toy_seed toy_sample)) = 80%nat /\
    Forall in_canvas (fst (px_draw nat toy_seed toy_sample)) /\
    Forall in_canvas (fst (py_draw nat toy_seed toy_sample)) /\
    Forall points_in_canvas
           (mesh_lines nat toy_seed toy_sample
              ++ particle_dots nat toy_seed toy_sample).
Proof.
  split; [exact toy_sample_range|]. split; [reflexivity|].
  apply (random_points_in_canvas nat toy_seed toy_sample no_faults
           equal_aspect_box 0%nat ∅).
  - exact toy_sample_range.
  - reflexivity.
Defined.

Lemma opacities_in_unit_interval_witness :
  unit_interval_rng nat toy_sample /\
  Forall (fun a => 0 <= alpha_of a <= 1)
         (artists (fig (world_of (toy_run no_faults)))) /\
  match first_fault no_faults n_calls with
  | None => artists (fig (world_of (toy_run no_faults)))
            = all_artists nat toy_seed toy_sample
  | Some _ => True
  end.
Proof.
  split; [exact toy_sample_range|].
  apply (opacities_in_unit_interval nat toy_seed toy_sample no_faults
           equal_aspect_box 0%nat ∅).
  exact toy_sample_range.
Defined.

(** The call that writes the PNG is the 163rd (index 162): when it raises,
    the run ends there with status 1. *)
Lemma no_error_handling_witness :
  (exists w : toy_world,
      toy_run (fault_at 162) = Raised w /\
      exit_code false (toy_run (fault_at 162)) = 1%Z /\
      calls w = 162%nat) /\
  (exists w : toy_world,
      toy_run no_faults = Returned tt w /\
      is_Some (files w !! png_name) /\
      is_Some (files w !! jpg_name) /\
      stdout w = status_lines /\
      exit_code true (toy_run no_faults) = 120%Z /\
      delivered true (toy_run no_faults) = None).
Proof.
  split.
  - pose proof (no_error_handling nat toy_seed toy_sample (fault_at 162)
                  equal_aspect_box false 0%nat ∅) as [H _].
    assert (E : first_fault (fault_at 162) n_calls = Some 162%nat)
      by reflexivity.
    rewrite E in H. destruct H as (w & H1 & H2 & _ & _ & _ & _ & H3 & _).
    exists w. split; [exact H1|]. split; [exact H2 | exact H3].
  - pose proof (no_error_handling nat toy_seed toy_sample no_faults
                  equal_aspect_box true 0%nat ∅) as [H _].
    assert (E : first_fault no_faults n_calls = None) by reflexivity.
    rewrite E in H.
    destruct H as (w & H1 & H2 & _ & _ & H3 & H4 & _ & H5 & H6).
    exists w. split; [exact H1|].
    split; [rewrite H3; eexists; reflexivity|].
    split; [rewrite H4; eexists; reflexivity|].
    split; [exact H5|]. split; [exact H2 | exact H6].
Defined.

Lemma png_transparent_jpg_opaque_witness :
  first_fault no_faults n_calls = None /\
  exists (w : toy_world) png jpg,
    toy_run no_faults = Returned tt w /\
    files w !! png_name = Some png /\
    files w !! jpg_name = Some jpg /\
    transparent png_opts = true /\ facecolor png_opts = "none"%string /\
    img_format png = PNG /\ img_alpha_channel png = true /\
    img_fill png = Some (0, 0, 0, 0)%N /\ img_transparent_axes png = true /\
    transparent jpg_opts = false /\ facecolor jpg_opts = "#1937b4"%string /\
    img_format jpg = JPEG /\ img_alpha_channel jpg = false /\
    img_fill jpg = Some (25, 55, 180, 255)%N /\
    img_transparent_axes jpg = false.
Proof.
  split; [reflexivity|].
  apply (png_transparent_jpg_opaque nat toy_seed toy_sample no_faults
           equal_aspect_box 0%nat ∅).
  reflexivity.
Defined.

Lemma waves_within_band_witness :
  In (1.8, 0, 0.20, 2.5, 5.0) wave_configs /\
  0 <= 3 <= 10 /\
  (5.0 - 1.5 <= wave_ordinate 1.8 0 5.0 3 <= 5.0 + 1.5 /\
   4.0 <= 5.0 <= 6.0 /\
   2.5 <= wave_ordinate 1.8 0 5.0 3 <= 7.5 /\
   0 < wave_ordinate 1.8 0 5.0 3 < 10 /\
   Forall (fun yv => 2.5 <= yv <= 7.5) (y_wave 1.8 0 5.0) /\
   length (y_wave 1.8 0 5.0) = 2000%nat).
Proof.
  split; [left; reflexivity|]. split; [lra|].
  apply (waves_within_band (1.8, 0, 0.20, 2.5, 5.0) 3).
  - left. reflexivity.
  - lra.
Defined.

Lemma concentric_circle_pairs_witness :
  first_fault no_faults n_calls = None /\
  length circles = 3%nat /\
  Forall pair_drawn circles /\
  exists (w : toy_world) before after,
    toy_run no_faults = Returned tt w /\
    artists (fig w) = before ++ flat_map ring_pair circles ++ after /\
    Forall (fun a => kind_of a <> KCircle) (before ++ after).
Proof.
  split; [reflexivity|].
  apply (concentric_circle_pairs nat toy_seed toy_sample no_faults
           equal_aspect_box 0%nat ∅).
  reflexivity.
Defined.

Lemma everything_within_canvas_witness :
  unit_interval_rng nat toy_sample /\
  Forall within_canvas (artists (fig (world_of (toy_run (fault_at 100))))).
Proof.
  split; [exact toy_sample_range|].
  apply (everything_within_canvas nat toy_seed toy_sample (fault_at 100)
           equal_aspect_box 0%nat ∅).
  exact toy_sample_range.
Defined.

Lemma particles_are_faint_dots_witness :
  unit_interval_rng nat toy_sample /\
  Forall particle_style (artists (fig (world_of (toy_run no_faults)))).
Proof.
  split; [exact toy_sample_range|].
  apply (particles_are_faint_dots nat toy_seed toy_sample no_faults
           equal_aspect_box 0%nat ∅).
  exact toy_sample_range.
Defined.

Lemma run_touches_only_its_outputs_witness :
  files (world_of (toy_run (fault_at 163))) !! "notes.txt"%string = None /\
  exists k, stdout (world_of (toy_run (fault_at 163))) = take k status_lines.
Proof.
  destruct (run_touches_only_its_outputs nat toy_seed toy_sample (fault_at 163)
              equal_aspect_box 0%nat ∅) as (H1 & _ & _ & H4).
  split; [|exact H4].
  rewrite H1 by discriminate. apply lookup_empty.
Defined.

Lemma failed_run_by_position_witness :
  first_fault (fault_at 163) n_calls = Some 163%nat /\
  exists w : toy_world,
    toy_run (fault_at 163) = Raised w /\
    (exists F, files w
               = <[png_name := savefig_image equal_aspect_box F PNG png_opts]> ∅) /\
    files w !! jpg_name = None /\
    stdout w = [].
Proof.
  split; [reflexivity|].
  destruct (failed_run_by_position nat toy_seed toy_sample (fault_at 163)
              equal_aspect_box 0%nat ∅ 163%nat eq_refl)
    as (w & Hrun & _ & _ & Hpng & _).
  destruct (Hpng eq_refl) as (HF & Hjpg & Hout).
  exists w. split; [exact Hrun|]. split; [exact HF|]. split; [|exact Hout].
  rewrite Hjpg. apply lookup_empty.
Defined.

Lemma outputs_show_the_same_drawing_witness :
  first_fault no_faults n_calls = None /\
  exists (w : toy_world) png jpg,
    toy_run no_faults = Returned tt w /\
    files w !! png_name = Some png /\
    files w !! jpg_name = Some jpg /\
    img_content png = all_artists nat toy_seed toy_sample /\
    img_content jpg = img_content png /\
    img_size jpg = img_size png /\
    img_format png <> img_format jpg /\
    img_alpha_channel png <> img_alpha_channel jpg /\
    img_fill png <> img_fill jpg.
Proof.
  split; [reflexivity|].
  apply (outputs_show_the_same_drawing nat toy_seed toy_sample no_faults
           equal_aspect_box 0%nat ∅).
  reflexivity.
Defined.

Lemma second_run_changes_nothing_witness :
  first_fault no_faults n_calls = None /\
  exists w1 w2 : toy_world,
    toy_run no_faults = Returned tt w1 /\
    run nat toy_seed toy_sample no_faults equal_aspect_box 7%nat (files w1)
      = Returned tt w2 /\
    files w2 = files w1.
Proof.
  split; [reflexivity|].
  apply (second_run_changes_nothing nat toy_seed toy_sample no_faults
           equal_aspect_box 0%nat 7%nat ∅).
  reflexivity.
Defined.


(** ** The embedding at work on the concrete environment *)

(** A complete run: 168 calls; the counting generator was seeded with 123
    and drew 4 * 80 times since; the three lines are printed and the figure
    is closed. *)
Example toy_run_completes :
  match toy_run no_faults with
  | Returned _ w => (calls w, rng_state w, stdout w, closed (fig w))
                    = (168%nat, 443%nat, status_lines, true)
  | Raised _ => False
  end.
Proof. lazy. reflexivity. Qed.

(** An exception in the second [ax.plot] of the wave loop: the image and
    one stroke are on the axes, nothing was printed. *)
Example toy_run_fault_in_waves :
  match toy_run (fault_at 4) with
  | Raised w => (calls w, map kind_of (artists (fig w)), stdout w)
                = (4%nat, [KImage; KLine], [])
  | Returned _ _ => False
  end.
Proof. lazy. reflexivity. Qed.

(** An exception in the first [np.random.uniform] of the particle block:
    the generator has just been seeded again. *)
Example toy_run_fault_after_reseeding :
  match toy_run (fault_at 73) with
  | Raised w => (calls w, rng_state w, List.length (artists (fig w)))
                = (73%nat, 123%nat, 54%nat)
  | Returned _ _ => False
  end.
Proof. lazy. reflexivity. Qed.

(** The exit status: a failing final flush gives 120, after a complete
    run and after an exception alike; otherwise 0 and 1. *)
Example toy_run_exit_status :
  (exit_code false (toy_run no_faults), exit_code true (toy_run no_faults),
   exit_code false (toy_run (fault_at 4)), exit_code true (toy_run (fault_at 4)))
  = (0, 120, 1, 120)%Z.
Proof. lazy. reflexivity. Qed.

(** An exception in the second [print]: both savefig calls and
    [plt.close] are done, one line is out. *)
Example toy_run_fault_in_report :
  match toy_run (fault_at 166) with
  | Raised w => (calls w, List.length (stdout w), closed (fig w))
                = (166%nat, 1%nat, true)
  | Returned _ _ => False
  end.
Proof. lazy. reflexivity. Qed.

End Hero.
